(** * Credit Decision Coach: the deterministic scoring core

    A shallow embedding of [backend/app/core/calculations.py] and
    [backend/app/core/risk_rules.py], together with the properties the
    specification states about them.

    Numbers.  Python [int] is [Z].  Python [float] is modelled by the exact
    rational it denotes ([Q], compared with [==]): every operation is the
    exact one, so overflow, NaN, infinities and the rounding error of binary
    floating point are outside the model.  [round] is Python 3's
    round-half-to-even.  Where the code in binary floating point departs
    from the exact value by more than a statement allows, the statement
    carries the bounds within which it does not: [math.pow] in
    [calculate_emi] raises [OverflowError] for large rates and tenures, and
    its difference from 1 cancels for rates close to zero, so statements
    about the annuity path are made for rates in [1, 30], tenures of at most
    360 months and amounts of at most [10^9]; statements that compare a
    quotient of two floats with a threshold are left to the cases where the
    rounding of the quotient cannot decide the comparison.

    Routes.  The routes of [loans], [chi] and [risk_alerts] that call the
    core are embedded as functions of the request and of what the lookups
    in the store returned. *)

From Stdlib Require Import QArith Qround Qabs Qpower Lqa ZArith Lia.
From Stdlib Require Import Ascii Sorted Permutation.
From stdpp Require Import gmap strings list fin_maps pretty sorting.

Open Scope Q_scope.

(** ** Python numerics *)

Module PyNum.

(** A number as Python has it at run time: an [int] or a [float]. *)
Inductive value :=
| VInt (z : Z)
| VFloat (q : Q).

Definition to_Q (v : value) : Q :=
  match v with
  | VInt z => inject_Z z
  | VFloat q => q
  end.

(** [a < b] and [a <= b] on floats, as booleans. *)
Definition Qleb (a b : Q) : bool := Qle_bool a b.
Definition Qltb (a b : Q) : bool := negb (Qle_bool b a).

(** [max(a, b)]: the first argument unless the second is strictly larger. *)
Definition py_max (a b : Q) : Q := if Qltb a b then b else a.

(** [min(a, b)] and [max(a, b)] on [int]. *)
Definition py_min_int (a b : Z) : Z := if (b <? a)%Z then b else a.
Definition py_max_int (a b : Z) : Z := if (a <? b)%Z then b else a.

(** [round(x)]: nearest integer, ties to the even one. *)
Definition py_round (x : Q) : Z :=
  let f := Qfloor x in
  match Qcompare (x - inject_Z f) (1 # 2) with
  | Lt => f
  | Gt => (f + 1)%Z
  | Eq => if Z.even f then f else (f + 1)%Z
  end.

(** [round(x, ndigits)] for a non-negative [ndigits]. *)
Definition round_ndigits (x : Q) (ndigits : nat) : Q :=
  inject_Z (py_round (x * inject_Z (10 ^ Z.of_nat ndigits)))
  / inject_Z (10 ^ Z.of_nat ndigits).

End PyNum.
Import PyNum.

(** ** calculations.py *)

Definition calculate_emi (principal annual_rate : Q) (tenure_months : Z) : Q :=
  if Qleb principal 0 || (tenure_months <=? 0)%Z then 0
  else if Qleb annual_rate 0 then principal / inject_Z tenure_months
  else
    let monthly_rate := annual_rate / 12 / 100 in
    let emi :=
      (principal * monthly_rate * Qpower (1 + monthly_rate) tenure_months)
      / (Qpower (1 + monthly_rate) tenure_months - 1) in
    round_ndigits emi 2.

Definition calculate_total_interest (principal emi : Q) (tenure_months : Z) : Q :=
  let total_payment := emi * inject_Z tenure_months in
  round_ndigits (total_payment - principal) 2.

(** The four weighted components, before any rounding. *)
Definition score_component (credit_score : Z) : Q :=
  (inject_Z credit_score / 900) * 40.
Definition emi_component (emi_to_income_ratio : Q) : Q :=
  py_max 0 ((1 - emi_to_income_ratio / 100) * 30).
Definition loan_component (active_loans : Z) : Q :=
  py_max 0 ((1 - inject_Z active_loans / 10) * 15).
Definition payment_component (missed_payments : Z) : Q :=
  py_max 0 ((1 - inject_Z missed_payments / 5) * 15).

Definition calculate_chi (credit_score : Z) (emi_to_income_ratio : Q)
    (active_loans missed_payments : Z) : Z :=
  let chi := score_component credit_score + emi_component emi_to_income_ratio
             + loan_component active_loans + payment_component missed_payments in
  py_round chi.

(** One entry of the breakdown dictionary. *)
Record chi_entry := ChiEntry {
  entry_value : value;
  component_score : Q;
  max_score : Z;
  weight : string
}.

(** The dictionary returned by [get_chi_breakdown], keyed by component name. *)
Definition get_chi_breakdown (credit_score : Z) (emi_to_income_ratio : Q)
    (active_loans missed_payments : Z) : gmap string chi_entry :=
  let score_component := round_ndigits (score_component credit_score) 1 in
  let emi_component := round_ndigits (emi_component emi_to_income_ratio) 1 in
  let loan_component := round_ndigits (loan_component active_loans) 1 in
  let payment_component := round_ndigits (payment_component missed_payments) 1 in
  <["credit_score" := ChiEntry (VInt credit_score) score_component 40 "40%"]>
  (<["emi_ratio" := ChiEntry (VFloat emi_to_income_ratio) emi_component 30 "30%"]>
  (<["active_loans" := ChiEntry (VInt active_loans) loan_component 15 "15%"]>
  (<["missed_payments" := ChiEntry (VInt missed_payments) payment_component 15 "15%"]>
   ∅))).

(** Sum of the [component_score] fields over the four keys of a breakdown. *)
Definition breakdown_total (b : gmap string chi_entry) : Q :=
  let get k := from_option component_score 0 (b !! k) in
  get "credit_score" + get "emi_ratio" + get "active_loans" + get "missed_payments".

Definition get_risk_level (chi_score : Z) : string :=
  if (70 <=? chi_score)%Z then "low"
  else if (40 <=? chi_score)%Z then "medium"
  else "high".

Definition calculate_emi_to_income_ratio (emi monthly_income : Q) : Q :=
  if Qleb monthly_income 0 then 100
  else round_ndigits ((emi / monthly_income) * 100) 2.

(** ** Exceptions, dictionaries and [str.format] *)

Module Py.

(** The exceptions the modelled fragment can raise.  [Unsupported] is not a
    Python exception: it marks a format string outside the fragment below. *)
Inductive exn :=
| KeyError (key : string)
| IndexError
| ValueError
| ZeroDivisionError
| Unsupported.

Inductive result (A : Type) :=
| Ok (a : A)
| Raise (e : exn).
Arguments Ok {A} a.
Arguments Raise {A} e.

Definition bind {A B} (r : result A) (k : A → result B) : result B :=
  match r with
  | Ok a => k a
  | Raise e => Raise e
  end.

Notation "x ←! r ; k" := (bind r (fun x => k))
  (at level 20, r at level 100, k at level 200, right associativity, only parsing).

(** A result that is no value: an exception, or [Unsupported]. *)
Definition raises {A} (r : result A) : Prop :=
  match r with Ok _ => False | Raise _ => True end.

(** [d.get(key, default)] *)
Definition dict_get {V} (d : gmap string V) (key : string) (dflt : V) : V :=
  default dflt (d !! key).

(** Comparison and arithmetic of numbers; [int] and [float] mix freely. *)
Definition py_gt (a b : value) : bool := Qltb (to_Q b) (to_Q a).
Definition py_lt (a b : value) : bool := Qltb (to_Q a) (to_Q b).
Definition py_le (a b : value) : bool := Qleb (to_Q a) (to_Q b).

Definition py_sub (a b : value) : value :=
  match a, b with
  | VInt x, VInt y => VInt (x - y)
  | _, _ => VFloat (to_Q a - to_Q b)
  end.

Definition py_mul (a b : value) : value :=
  match a, b with
  | VInt x, VInt y => VInt (x * y)
  | _, _ => VFloat (to_Q a * to_Q b)
  end.

(** [a / b]: true division, which raises on a zero divisor. *)
Definition py_truediv (a b : value) : result value :=
  if Qeq_bool (to_Q b) 0 then Raise ZeroDivisionError
  else Ok (VFloat (to_Q a / to_Q b)).

(** [format(v, ".0f")]: nearest integer, ties to even, sign kept. *)
Definition format_fixed0 (q : Q) : string :=
  (if Qltb q 0 then "-" else "") +:+ pretty (py_round (Qabs q)).

(** [format(v, spec)] for the two specifications the rule catalog uses. *)
Definition format_value (v : value) (spec : string) : result string :=
  if String.eqb spec "" then
    match v with
    | VInt z => Ok (pretty z)
    | VFloat _ => Raise Unsupported
    end
  else if String.eqb spec ".0f" then Ok (format_fixed0 (to_Q v))
  else Raise Unsupported.

Definition is_digit (c : ascii) : bool :=
  (48 <=? nat_of_ascii c)%nat && (nat_of_ascii c <=? 57)%nat.

Fixpoint all_digits (s : string) : bool :=
  match s with
  | EmptyString => true
  | String c s' => is_digit c && all_digits s'
  end.

(** A replacement field [{name:spec}] looked up among the keyword arguments.
    An empty or numeric name is positional, and there are no positional
    arguments. *)
Definition format_field (kwargs : gmap string value) (name spec : string)
    : result string :=
  if all_digits name then Raise IndexError
  else match kwargs !! name with
       | None => Raise (KeyError name)
       | Some v => format_value v spec
       end.

(** Where the scan of a format string stands. *)
Inductive fstate :=
| SText
| SOpen
| SClose
| SName (name : string)
| SSpec (name spec : string).

Definition snoc (s : string) (c : ascii) : string := s +:+ String c "".

(** [template.format] with keyword arguments, one character at a time, left to right:
    a field is rendered when its closing brace is read, so an error in an
    earlier field wins over a later one. *)
Fixpoint format_from (kwargs : gmap string value) (st : fstate) (out : string)
    (t : string) : result string :=
  match t with
  | EmptyString =>
      match st with
      | SText => Ok out
      | _ => Raise ValueError
      end
  | String c t' =>
      match st with
      | SText =>
          if Ascii.eqb c "{"%char then format_from kwargs SOpen out t'
          else if Ascii.eqb c "}"%char then format_from kwargs SClose out t'
          else format_from kwargs SText (snoc out c) t'
      | SOpen =>
          if Ascii.eqb c "{"%char then format_from kwargs SText (snoc out c) t'
          else if Ascii.eqb c "}"%char then Raise IndexError
          else if Ascii.eqb c ":"%char then format_from kwargs (SSpec "" "") out t'
          else if Ascii.eqb c "!"%char || Ascii.eqb c "."%char || Ascii.eqb c "["%char
               then Raise Unsupported
          else format_from kwargs (SName (String c "")) out t'
      | SClose =>
          if Ascii.eqb c "}"%char then format_from kwargs SText (snoc out c) t'
          else Raise ValueError
      | SName name =>
          if Ascii.eqb c "}"%char then
            match format_field kwargs name "" with
            | Ok s => format_from kwargs SText (out +:+ s) t'
            | Raise e => Raise e
            end
          else if Ascii.eqb c ":"%char then format_from kwargs (SSpec name "") out t'
          else if Ascii.eqb c "{"%char then Raise ValueError
          else if Ascii.eqb c "!"%char || Ascii.eqb c "."%char || Ascii.eqb c "["%char
               then Raise Unsupported
          else format_from kwargs (SName (snoc name c)) out t'
      | SSpec name spec =>
          if Ascii.eqb c "}"%char then
            match format_field kwargs name spec with
            | Ok s => format_from kwargs SText (out +:+ s) t'
            | Raise e => Raise e
            end
          else if Ascii.eqb c "{"%char then Raise Unsupported
          else format_from kwargs (SSpec name (snoc spec c)) out t'
      end
  end.

Definition py_format (template : string) (kwargs : gmap string value)
    : result string :=
  format_from kwargs SText "" template.

(** [l.sort(key=key)]: a stable sort, smallest key first.  Each element is
    put in front of the first later element whose key is not smaller. *)
Fixpoint insert_by_key {A} (key : A → Z) (x : A) (l : list A) : list A :=
  match l with
  | [] => [x]
  | y :: l' => if (key x <=? key y)%Z then x :: l else y :: insert_by_key key x l'
  end.

Definition sort_by_key {A} (key : A → Z) (l : list A) : list A :=
  foldr (insert_by_key key) [] l.

End Py.
Import Py.

(** ** risk_rules.py: the rule catalog *)

(** A rule of the catalog.  [rule_check] is the rule's [lambda profile: ...];
    like any call it either returns a truth value or raises. *)
Record risk_rule := RiskRule {
  rule_id : string;
  rule_title : string;
  rule_rule : string;
  rule_severity : string;
  rule_check : gmap string value → result bool;
  rule_description_template : string
}.

(** Calculate disposable income percentage. *)
Definition _check_disposable (profile : gmap string value) : result value :=
  let income := dict_get profile "monthly_income" (VInt 0) in
  let expenses := dict_get profile "monthly_expenses" (VInt 0) in
  let emis := dict_get profile "existing_emis" (VInt 0) in
  if py_le income (VInt 0) then Ok (VInt 0)
  else
    let disposable := py_sub (py_sub income expenses) emis in
    q ←! py_truediv disposable income;
    Ok (py_mul q (VInt 100)).

Definition RISK_RULES : list risk_rule := [
  RiskRule "high_emi_burden" "High EMI Burden" "EMI > 40% of income" "high"
    (fun profile => Ok (py_gt (dict_get profile "emi_ratio" (VInt 0)) (VInt 40)))
    "Your EMI consumes {ratio:.0f}% of your income. This may reduce future loan eligibility.";
  RiskRule "very_high_emi" "Critical EMI Level" "EMI > 60% of income" "high"
    (fun profile => Ok (py_gt (dict_get profile "emi_ratio" (VInt 0)) (VInt 60)))
    "Your EMI is at {ratio:.0f}% of income - critically high. Consider debt consolidation.";
  RiskRule "high_credit_utilization" "Credit Utilization Rising"
    "Credit utilization > 60%" "medium"
    (fun profile => Ok (py_gt (dict_get profile "credit_utilization" (VInt 0)) (VInt 60)))
    "Your credit utilization is at {utilization}%. Consider paying down balances.";
  RiskRule "very_high_utilization" "Credit Utilization Critical"
    "Credit utilization > 80%" "high"
    (fun profile => Ok (py_gt (dict_get profile "credit_utilization" (VInt 0)) (VInt 80)))
    "Credit utilization at {utilization}% is critically high. This severely impacts your score.";
  RiskRule "low_credit_score" "Low Credit Score" "Credit score < 600" "high"
    (fun profile => Ok (py_lt (dict_get profile "credit_score" (VInt 700)) (VInt 600)))
    "Your credit score of {score} is below average. Focus on timely payments and reducing debt.";
  RiskRule "multiple_active_loans" "Multiple Active Loans" "Active loans > 3" "medium"
    (fun profile => Ok (py_gt (dict_get profile "active_loans" (VInt 0)) (VInt 3)))
    "You have {loans} active loans. Consider consolidating to simplify management.";
  RiskRule "low_disposable_income" "Low Disposable Income"
    "Disposable income < 20% of income" "medium"
    (fun profile => d ←! _check_disposable profile; Ok (py_lt d (VInt 20)))
    "Your disposable income is only {disposable_pct:.0f}% of your earnings. Build an emergency fund.";
  RiskRule "score_improvement" "Score Improvement" "Positive trend detected" "low"
    (fun profile => Ok (py_gt (dict_get profile "score_trend" (VInt 0)) (VInt 30)))
    "Your credit score has improved by {trend} points in the last 6 months. Keep it up!";
  RiskRule "healthy_finances" "Healthy Financial Status" "EMI < 30% and score > 750" "low"
    (fun profile =>
       Ok (py_lt (dict_get profile "emi_ratio" (VInt 100)) (VInt 30)
           && py_gt (dict_get profile "credit_score" (VInt 0)) (VInt 750)))
    "Your finances are in excellent shape with low EMI burden and high credit score.";
  RiskRule "optimal_utilization" "Optimal Credit Utilization"
    "Credit utilization between 10-30%" "low"
    (fun profile =>
       Ok (py_le (VInt 10) (dict_get profile "credit_utilization" (VInt 0))
           && py_le (dict_get profile "credit_utilization" (VInt 0)) (VInt 30)))
    "Your credit utilization of {utilization}% is in the optimal range. Well done!"
].

(** ** risk_rules.py: alert generation *)

Record alert := Alert {
  alert_id : string;
  alert_title : string;
  alert_description : string;
  alert_severity : string;
  alert_rule : string;
  alert_created_at : string;
  alert_is_active : bool
}.

(** The derived ratios of the profile dictionary. *)
Definition emi_ratio_of (monthly_income existing_emis : Q) : value :=
  if Qltb 0 monthly_income then VFloat (existing_emis / monthly_income * 100)
  else VInt 100.

Definition disposable_pct_of (monthly_income monthly_expenses existing_emis : Q)
    : value :=
  let disposable := monthly_income - monthly_expenses - existing_emis in
  if Qltb 0 monthly_income then VFloat (disposable / monthly_income * 100)
  else VInt 0.

Definition build_profile (credit_score : Z)
    (monthly_income monthly_expenses existing_emis : Q)
    (credit_utilization active_loans score_trend : Z) : gmap string value :=
  <["credit_score" := VInt credit_score]>
  (<["monthly_income" := VFloat monthly_income]>
  (<["monthly_expenses" := VFloat monthly_expenses]>
  (<["existing_emis" := VFloat existing_emis]>
  (<["credit_utilization" := VInt credit_utilization]>
  (<["active_loans" := VInt active_loans]>
  (<["emi_ratio" := emi_ratio_of monthly_income existing_emis]>
  (<["disposable_pct" :=
       disposable_pct_of monthly_income monthly_expenses existing_emis]>
  (<["score_trend" := VInt score_trend]> ∅)))))))).

(** The keyword arguments every description template is rendered with. *)
Definition format_kwargs (credit_score : Z)
    (monthly_income monthly_expenses existing_emis : Q)
    (credit_utilization active_loans score_trend : Z) : gmap string value :=
  <["ratio" := emi_ratio_of monthly_income existing_emis]>
  (<["utilization" := VInt credit_utilization]>
  (<["score" := VInt credit_score]>
  (<["loans" := VInt active_loans]>
  (<["disposable_pct" :=
       disposable_pct_of monthly_income monthly_expenses existing_emis]>
  (<["trend" := VInt score_trend]> ∅))))).

Section Evaluation.

(** The catalog iterated over, the profile and keyword arguments of the
    call, and the timestamp taken before the loop. *)
Variable rules : list risk_rule.
Variable profile kwargs : gmap string value.
Variable now : string.

(** The body of the [try]: the alert appended, if the rule triggers. *)
Definition try_rule (rule : risk_rule) : result (option alert) :=
  triggered ←! rule_check rule profile;
  if triggered : bool then
    description ←! py_format (rule_description_template rule) kwargs;
    Ok (Some (Alert (rule_id rule) (rule_title rule) description
                    (rule_severity rule) (rule_rule rule) now true))
  else Ok None.

(** One iteration of the loop over the list [alerts]; [except Exception]
    leaves it as it was. *)
Definition loop_step (alerts : list alert) (rule : risk_rule) : list alert :=
  match try_rule rule with
  | Ok (Some a) => alerts ++ [a]
  | Ok None => alerts
  | Raise _ => alerts
  end.

Definition collect_alerts : list alert := fold_left loop_step rules [].

(** What one rule adds to the list: its alert, or nothing. *)
Definition rule_alert (rule : risk_rule) : option alert :=
  match try_rule rule with
  | Ok (Some a) => Some a
  | Ok None => None
  | Raise _ => None
  end.

End Evaluation.

Definition severity_order : gmap string Z :=
  <["high" := 0%Z]> (<["medium" := 1%Z]> (<["low" := 2%Z]> ∅)).

Definition severity_key (x : alert) : Z :=
  dict_get severity_order (alert_severity x) 3%Z.

(** [generate_risk_alerts] over an arbitrary catalog. *)
Definition generate_risk_alerts_over (rules : list risk_rule) (now : string)
    (credit_score : Z) (monthly_income monthly_expenses existing_emis : Q)
    (credit_utilization active_loans score_trend : Z) : list alert :=
  let profile := build_profile credit_score monthly_income monthly_expenses
                   existing_emis credit_utilization active_loans score_trend in
  let kwargs := format_kwargs credit_score monthly_income monthly_expenses
                  existing_emis credit_utilization active_loans score_trend in
  let alerts := collect_alerts rules profile kwargs now in
  sort_by_key severity_key alerts.

(** [generate_risk_alerts]; [now] is [datetime.utcnow().isoformat()]. *)
Definition generate_risk_alerts (now : string)
    (credit_score : Z) (monthly_income monthly_expenses existing_emis : Q)
    (credit_utilization active_loans score_trend : Z) : list alert :=
  generate_risk_alerts_over RISK_RULES now credit_score monthly_income
    monthly_expenses existing_emis credit_utilization active_loans score_trend.

(** The rank of a severity string in the sort. *)
Definition severity_rank (severity : string) : Z :=
  dict_get severity_order severity 3%Z.

(** Two rules that fail, for exercising the [except] of the loop: the
    template of the first names a keyword the call does not pass, the
    predicate of the second divides by a profile field that is not there. *)
Definition rule_missing_key : risk_rule :=
  RiskRule "missing_key" "Missing key" "always" "high"
    (fun profile => Ok true)
    "Field {missing} is not passed.".

Definition rule_raising_check : risk_rule :=
  RiskRule "raising_check" "Raising check" "1 / savings > 0" "medium"
    (fun profile =>
       q ←! py_truediv (VInt 1) (dict_get profile "savings" (VInt 0));
       Ok (py_gt q (VInt 0)))
    "Never rendered.".

(** A result that is a Python exception, which [except Exception] catches:
    [KeyError], [IndexError], [ValueError] or [ZeroDivisionError].
    [Unsupported] is none of them: it marks a format string that this
    development does not render and that [str.format] may well render. *)
Definition raises_exception {A} (r : result A) : Prop :=
  match r with
  | Ok _ => False
  | Raise Unsupported => False
  | Raise _ => True
  end.

(** A rule that is evaluated here as Python evaluates it: neither its
    predicate nor, once it has triggered, its template leaves the modelled
    fragment. *)
Definition in_fragment (profile kwargs : gmap string value) (rule : risk_rule)
    : Prop :=
  rule_check rule profile ≠ Raise Unsupported ∧
  (rule_check rule profile = Ok true →
   py_format (rule_description_template rule) kwargs ≠ Raise Unsupported).

(** ** risk_rules.py: the what-if simulator *)

Record simulation_action := SimulationAction {
  action_id : string;
  action_title : string;
  action_description : string;
  action_impact : Z;
  action_direction : string;
  action_explanation : string;
  action_alternative : string
}.

Definition SIMULATION_ACTIONS : list simulation_action := [
  SimulationAction "miss_emi" "Miss 1 EMI"
    "See the impact of missing a single EMI payment" (-35) "down"
    "Missing one EMI may reduce your score by ~30-40 points. Payment history accounts for 35% of your credit score."
    "Set up auto-debit or extend tenure by 6 months to reduce EMI if you're tight on cash.";
  SimulationAction "increase_util" "Increase Utilization"
    "Use more of your available credit limit" (-25) "down"
    "Increasing utilization above 70% signals credit dependency. Each 10% increase above 30% costs ~5-10 points."
    "Request a credit limit increase instead, or spread expenses across multiple cards.";
  SimulationAction "extend_tenure" "Extend Tenure"
    "Increase your loan repayment period" 5 "up"
    "Extending tenure lowers your EMI-to-income ratio, which can slightly improve your credit health index."
    "Consider this option if you need immediate cash flow relief.";
  SimulationAction "close_loan" "Close a Loan"
    "Pay off and close an existing loan" 15 "up"
    "Closing a loan reduces your debt burden and may improve your score by 10-20 points over 2-3 months."
    "Prioritize closing high-interest loans first for maximum impact.";
  SimulationAction "reduce_utilization" "Reduce Utilization to 30%"
    "Pay down credit card balances" 20 "up"
    "Reducing utilization below 30% is optimal. Each 10% reduction below 50% can add 5-10 points."
    "If you can't pay down, request a credit limit increase to lower the ratio.";
  SimulationAction "new_credit_inquiry" "Apply for New Credit"
    "Submit a new loan or credit card application" (-10) "down"
    "Each hard inquiry reduces your score by 5-15 points temporarily. Multiple inquiries in short time have bigger impact."
    "Space out credit applications by at least 6 months when possible."
].

(** Get a specific simulation action by ID: the first entry with that id. *)
Fixpoint find_action (actions : list simulation_action) (id : string)
    : option simulation_action :=
  match actions with
  | [] => None
  | action :: rest =>
      if String.eqb (action_id action) id then Some action
      else find_action rest id
  end.

Definition get_simulation_action (id : string) : option simulation_action :=
  find_action SIMULATION_ACTIONS id.

Record simulation_result := SimulationResult {
  current_score : Z;
  projected_score : Z;
  impact : Z;
  direction : string;
  explanation : string;
  alternative : string
}.

Definition simulate_action (id : string) (score : Z) : option simulation_result :=
  match get_simulation_action id with
  | None => None
  | Some action =>
      let projected := (score + action_impact action)%Z in
      let projected := py_max_int 300 (py_min_int 900 projected) in
      Some (SimulationResult score projected (action_impact action)
              (action_direction action) (action_explanation action)
              (action_alternative action))
  end.

(** ** calculations.py: the recommendation *)

Definition get_loan_recommendation (emi_ratio : Q) : string :=
  if Qltb 50 emi_ratio then
    "This EMI is very high relative to your income. Consider a smaller loan amount or longer tenure to reduce monthly payments."
  else if Qltb 40 emi_ratio then
    "Consider extending tenure to reduce EMI. This loan may strain your monthly budget."
  else if Qltb 30 emi_ratio then
    "This loan is affordable but leaves less room for savings. Consider a smaller amount if possible."
  else
    "This loan fits well within your budget. You have healthy financial headroom.".

(** ** risk_rules.py: alert counts *)

(** A value of an alert dictionary: a string or a truth value. *)
Inductive field :=
| FStr (s : string)
| FBool (b : bool).

(** The dictionary [generate_risk_alerts] appends for an alert. *)
Definition alert_dict (a : alert) : gmap string field :=
  <["id" := FStr (alert_id a)]>
  (<["title" := FStr (alert_title a)]>
  (<["description" := FStr (alert_description a)]>
  (<["severity" := FStr (alert_severity a)]>
  (<["rule" := FStr (alert_rule a)]>
  (<["created_at" := FStr (alert_created_at a)]>
  (<["is_active" := FBool (alert_is_active a)]> ∅)))))).

(** One iteration of the loop of [get_alert_counts]: a severity that is a key
    of [counts] has its count raised by one. *)
Definition count_alert (counts : gmap string Z) (alert : gmap string field)
    : gmap string Z :=
  match dict_get alert "severity" (FStr "low") with
  | FStr severity =>
      match counts !! severity with
      | Some n => <[severity := (n + 1)%Z]> counts
      | None => counts
      end
  | FBool _ => counts
  end.

Definition get_alert_counts (alerts : list (gmap string field)) : gmap string Z :=
  fold_left count_alert alerts
    (<["high" := 0%Z]> (<["medium" := 0%Z]> (<["low" := 0%Z]> ∅))).

#[global] Instance field_eq_dec : EqDecision field.
Proof. solve_decision. Defined.

(** The severity an alert dictionary is counted under, and the number of
    dictionaries of a list counted under a given severity. *)
Definition counted_severity (alert : gmap string field) : field :=
  dict_get alert "severity" (FStr "low").

Definition count_severity (severity : string)
    (alerts : list (gmap string field)) : Z :=
  Z.of_nat (length (filter (λ alert, counted_severity alert = FStr severity)
                      alerts)).

(** A [counts] dictionary with the given three entries. *)
Definition counts_dict (high medium low : Z) : gmap string Z :=
  <["high" := high]> (<["medium" := medium]> (<["low" := low]> ∅)).

(** ** The routes that call the core *)

Module Routes.

(** [DEFAULT_USER] of loans/routes.py. *)
Definition DEFAULT_USER : gmap string Z :=
  <["monthly_income" := 85000%Z]>
  (<["monthly_expenses" := 35000%Z]>
  (<["existing_emis" := 12000%Z]>
  (<["credit_score" := 742%Z]>
  (<["active_loans" := 2%Z]> ∅)))).

(** [x or d] for an optional number: [None] and zero are both falsy. *)
Definition or_default (x : option Q) (d : Q) : Q :=
  match x with
  | Some v => if Qeq_bool v 0 then d else v
  | None => d
  end.

Definition or_default_int (x : option Z) (d : Z) : Z :=
  match x with
  | Some v => if (v =? 0)%Z then d else v
  | None => d
  end.

(** What the lookups in the store assigned to the locals of a route, field
    by field: [None] where a local was left as it was, because there was no
    row or the lookup raised before reaching it. *)
Record stored := Stored {
  stored_monthly_income : option Q;
  stored_monthly_expenses : option Q;
  stored_existing_emis : option Q;
  stored_active_loans : option Z;
  stored_score : option Z
}.

(** [if request.x is None: x = <stored value>] *)
Definition unless_requested {A B} (requested : option A) (current : B)
    (found : option B) : B :=
  match requested with
  | None => default current found
  | Some _ => current
  end.

Record LoanCalculateRequest := {
  req_loan_amount : Q;
  req_interest_rate : Q;
  req_tenure_months : Z;
  req_monthly_income : option Q;
  req_monthly_expenses : option Q;
  req_existing_emis : option Q;
  req_credit_score : option Z;
  req_active_loans : option Z
}.

(** The bounds the schema puts on a playground request. *)
Definition valid_loan_request (request : LoanCalculateRequest) : Prop :=
  10000 <= req_loan_amount request ∧
  1 <= req_interest_rate request <= 30 ∧
  (6 ≤ req_tenure_months request ≤ 360)%Z.

Record LoanCalculateResponse := {
  resp_emi : Q;
  resp_total_interest : Q;
  resp_total_payment : Q;
  resp_new_total_emi : Q;
  resp_new_emi_ratio : Q;
  resp_current_chi : Z;
  resp_new_chi : Z;
  resp_chi_change : Z;
  resp_risk_level : string;
  resp_recommendation : string
}.

(** [calculate_loan] of loans/routes.py. *)
Definition calculate_loan (request : LoanCalculateRequest) (db : stored)
    : LoanCalculateResponse :=
  let monthly_income :=
    or_default (req_monthly_income request)
      (inject_Z (DEFAULT_USER !!! "monthly_income")) in
  let monthly_expenses :=
    or_default (req_monthly_expenses request)
      (inject_Z (DEFAULT_USER !!! "monthly_expenses")) in
  let existing_emis :=
    or_default (req_existing_emis request)
      (inject_Z (DEFAULT_USER !!! "existing_emis")) in
  let credit_score :=
    or_default_int (req_credit_score request) (DEFAULT_USER !!! "credit_score") in
  let active_loans :=
    or_default_int (req_active_loans request) (DEFAULT_USER !!! "active_loans") in
  let monthly_income :=
    unless_requested (req_monthly_income request) monthly_income
      (stored_monthly_income db) in
  let monthly_expenses :=
    unless_requested (req_monthly_expenses request) monthly_expenses
      (stored_monthly_expenses db) in
  let existing_emis :=
    unless_requested (req_existing_emis request) existing_emis
      (stored_existing_emis db) in
  let active_loans :=
    unless_requested (req_active_loans request) active_loans
      (stored_active_loans db) in
  let credit_score :=
    unless_requested (req_credit_score request) credit_score (stored_score db) in
  let emi := calculate_emi (req_loan_amount request) (req_interest_rate request)
               (req_tenure_months request) in
  let total_interest :=
    calculate_total_interest (req_loan_amount request) emi
      (req_tenure_months request) in
  let total_payment := req_loan_amount request + total_interest in
  let new_total_emi := existing_emis + emi in
  let current_emi_ratio :=
    calculate_emi_to_income_ratio existing_emis monthly_income in
  let new_emi_ratio :=
    calculate_emi_to_income_ratio new_total_emi monthly_income in
  let current_chi := calculate_chi credit_score current_emi_ratio active_loans 0 in
  let new_chi := calculate_chi credit_score new_emi_ratio (active_loans + 1) 0 in
  let chi_change := (new_chi - current_chi)%Z in
  let risk_level := get_risk_level new_chi in
  let recommendation := get_loan_recommendation new_emi_ratio in
  {| resp_emi := emi;
     resp_total_interest := total_interest;
     resp_total_payment := total_payment;
     resp_new_total_emi := new_total_emi;
     resp_new_emi_ratio := round_ndigits new_emi_ratio 2;
     resp_current_chi := current_chi;
     resp_new_chi := new_chi;
     resp_chi_change := chi_change;
     resp_risk_level := risk_level;
     resp_recommendation := recommendation |}.

Record LoanComparisonItem := {
  item_tenure_months : Z;
  item_emi : Q;
  item_total_interest : Q;
  item_total_payment : Q;
  item_emi_ratio : Q
}.

(** The body of the loop of [compare_loan_options]. *)
Definition comparison_item (loan_amount interest_rate income emis : Q)
    (tenure : Z) : LoanComparisonItem :=
  let emi := calculate_emi loan_amount interest_rate tenure in
  let total_interest := calculate_total_interest loan_amount emi tenure in
  let total_payment := loan_amount + total_interest in
  let new_emi_ratio := calculate_emi_to_income_ratio (emis + emi) income in
  {| item_tenure_months := tenure;
     item_emi := emi;
     item_total_interest := total_interest;
     item_total_payment := total_payment;
     item_emi_ratio := round_ndigits new_emi_ratio 2 |}.

(** [compare_loan_options] of loans/routes.py: the [options] of the
    response. *)
Definition compare_loan_options (loan_amount interest_rate : Q)
    (monthly_income existing_emis : option Q) (db : stored)
    : list LoanComparisonItem :=
  let income :=
    or_default monthly_income (inject_Z (DEFAULT_USER !!! "monthly_income")) in
  let emis :=
    or_default existing_emis (inject_Z (DEFAULT_USER !!! "existing_emis")) in
  let income := unless_requested monthly_income income (stored_monthly_income db) in
  let emis := unless_requested existing_emis emis (stored_existing_emis db) in
  let tenures := [12; 24; 36; 48; 60; 72; 84]%Z in
  fold_left
    (λ options tenure,
       options ++ [comparison_item loan_amount interest_rate income emis tenure])
    tenures [].

(** The outcome of a route: a response, or an [HTTPException]. *)
Inductive http (A : Type) :=
| Respond (a : A)
| HTTPException (status_code : Z) (detail : string).
Arguments Respond {A} a.
Arguments HTTPException {A} status_code detail.

(** [run_simulation] of loans/routes.py. *)
Definition run_simulation (action_id : string) (current_score : option Z)
    (db : stored) : http simulation_result :=
  let score := or_default_int current_score (DEFAULT_USER !!! "credit_score") in
  let score := unless_requested current_score score (stored_score db) in
  match simulate_action action_id score with
  | None =>
      HTTPException 404
        ("Simulation action '" +:+ action_id +:+ "' not found")
  | Some result => Respond result
  end.

Record CHIResponse := {
  chi_score : Z;
  chi_risk_level : string;
  chi_breakdown : gmap string chi_entry
}.

(** [get_current_chi] of chi/routes.py. *)
Definition get_current_chi (db : stored) : CHIResponse :=
  let credit_score := 742%Z in
  let monthly_income := 85000 in
  let existing_emis := 12000 in
  let active_loans := 2%Z in
  let missed_payments := 0%Z in
  let monthly_income := default monthly_income (stored_monthly_income db) in
  let existing_emis := default existing_emis (stored_existing_emis db) in
  let active_loans := default active_loans (stored_active_loans db) in
  let credit_score := default credit_score (stored_score db) in
  let emi_ratio :=
    if Qltb 0 monthly_income then existing_emis / monthly_income * 100 else 0 in
  let chi_score := calculate_chi credit_score emi_ratio active_loans missed_payments in
  let risk_level := get_risk_level chi_score in
  let breakdown :=
    get_chi_breakdown credit_score emi_ratio active_loans missed_payments in
  {| chi_score := chi_score;
     chi_risk_level := risk_level;
     chi_breakdown := breakdown |}.

(** [MOCK_ALERTS] of risk_alerts/routes.py; [created_at] is kept as the
    string that the route parses. *)
Definition MOCK_ALERTS : list alert := [
  Alert "1" "High EMI Burden"
    "Your EMI consumes 46% of your income. This may reduce future loan eligibility."
    "high" "EMI > 40% of income" "2024-12-15T00:00:00Z" true;
  Alert "2" "Credit Utilization Rising"
    "Your credit utilization is at 65%. Consider paying down balances."
    "medium" "Credit utilization > 60%" "2024-12-10T00:00:00Z" true;
  Alert "3" "Score Improvement"
    "Your credit score has improved by 44 points in the last 6 months."
    "low" "Positive trend detected" "2024-12-01T00:00:00Z" true
].

(** The profile row of the store as [get_risk_alerts] reads it, after the
    defaults of [profile.get] and the conversions to [float] and [int]. *)
Record profile_row := {
  row_monthly_income : Q;
  row_monthly_expenses : Q;
  row_existing_emis : Q;
  row_credit_utilization : Z;
  row_active_loans : Z
}.

Record RiskAlertsListResponse := {
  alerts : list alert;
  counts : gmap string Z
}.

(** [get_risk_alerts] of risk_alerts/routes.py.  [lookup] is the profile row
    and the latest score of the store; it is [None] when there is no row or
    the [try] block raised, and the score is [None] when none is stored. *)
Definition get_risk_alerts (now : string)
    (lookup : option (profile_row * option Z)) : RiskAlertsListResponse :=
  match lookup with
  | Some (profile, score) =>
      let credit_score := default 700%Z score in
      let generated :=
        generate_risk_alerts now credit_score (row_monthly_income profile)
          (row_monthly_expenses profile) (row_existing_emis profile)
          (row_credit_utilization profile) (row_active_loans profile) 44 in
      {| alerts := generated;
         counts := get_alert_counts (alert_dict <$> generated) |}
  | None =>
      {| alerts := MOCK_ALERTS;
         counts := <["high" := 1%Z]> (<["medium" := 1%Z]> (<["low" := 1%Z]> ∅)) |}
  end.

(** The lookup of [get_risk_alert]: the first mock alert of that id. *)
Fixpoint find_alert (alerts : list alert) (id : string) : option alert :=
  match alerts with
  | [] => None
  | a :: rest =>
      if String.eqb (alert_id a) id then Some a else find_alert rest id
  end.

(** [get_risk_alert] of risk_alerts/routes.py. *)
Definition get_risk_alert (id : string) : http alert :=
  match find_alert MOCK_ALERTS id with
  | Some a => Respond a
  | None => HTTPException 404 "Alert not found"
  end.

End Routes.

(** * Properties *)

(** ** Rounding and comparison lemmas *)

(** Division by a literal becomes a product, which [lra] understands. *)
Ltac qdiv := unfold Qdiv in *; cbn [Qinv Qnum Qden] in *.

Lemma Qltb_lt (a b : Q) : Qltb a b = true ↔ a < b.
Proof.
  unfold Qltb. rewrite negb_true_iff, <- not_true_iff_false, Qle_bool_iff.
  split; [apply Qnot_le_lt | apply Qlt_not_le].
Qed.

Lemma Qltb_ge (a b : Q) : Qltb a b = false ↔ b <= a.
Proof.
  unfold Qltb. rewrite negb_false_iff. apply Qle_bool_iff.
Qed.

Lemma Qleb_le (a b : Q) : Qleb a b = true ↔ a <= b.
Proof. apply Qle_bool_iff. Qed.

Lemma Qleb_gt (a b : Q) : Qleb a b = false ↔ b < a.
Proof.
  unfold Qleb. rewrite <- not_true_iff_false, Qle_bool_iff.
  split; [apply Qnot_le_lt | apply Qlt_not_le].
Qed.

Lemma py_max_cases (a b : Q) :
  (a < b ∧ py_max a b = b) ∨ (b <= a ∧ py_max a b = a).
Proof.
  unfold py_max. destruct (Qltb a b) eqn:E.
  - left. split; [by apply Qltb_lt | done].
  - right. split; [by apply Qltb_ge | done].
Qed.

Lemma py_round_cases (x : Q) :
  py_round x = Qfloor x ∨ py_round x = (Qfloor x + 1)%Z.
Proof.
  unfold py_round.
  destruct (Qcompare _ _); [destruct (Z.even _) | |]; auto.
Qed.

Lemma py_round_lower (x : Q) : x - (1 # 2) <= inject_Z (py_round x).
Proof.
  pose proof (Qfloor_le x) as Hlo. pose proof (Qlt_floor x) as Hhi.
  rewrite inject_Z_plus in Hhi. change (inject_Z 1) with 1 in Hhi.
  unfold py_round.
  destruct (Qcompare (x - inject_Z (Qfloor x)) (1 # 2)) eqn:E.
  - apply Qeq_alt in E.
    destruct (Z.even _); rewrite ?inject_Z_plus; change (inject_Z 1) with 1; lra.
  - apply Qlt_alt in E. lra.
  - rewrite inject_Z_plus. change (inject_Z 1) with 1. lra.
Qed.

Lemma py_round_upper (x : Q) : inject_Z (py_round x) <= x + (1 # 2).
Proof.
  pose proof (Qfloor_le x) as Hlo.
  unfold py_round.
  destruct (Qcompare (x - inject_Z (Qfloor x)) (1 # 2)) eqn:E.
  - apply Qeq_alt in E.
    destruct (Z.even _); rewrite ?inject_Z_plus; change (inject_Z 1) with 1; lra.
  - lra.
  - apply Qgt_alt in E. rewrite inject_Z_plus. change (inject_Z 1) with 1. lra.
Qed.

Lemma py_round_ge_int (x : Q) (z : Z) : inject_Z z <= x → (z ≤ py_round x)%Z.
Proof.
  intros H. apply Qfloor_resp_le in H. rewrite Qfloor_Z in H.
  destruct (py_round_cases x) as [-> | ->]; lia.
Qed.

Lemma py_round_le_int (x : Q) (z : Z) : x <= inject_Z z → (py_round x ≤ z)%Z.
Proof.
  intros H. pose proof (Qfloor_resp_le _ _ H) as Hf. rewrite Qfloor_Z in Hf.
  destruct (Z.eq_dec (Qfloor x) z) as [Heq | Hne].
  - unfold py_round. rewrite Heq.
    destruct (Qcompare (x - inject_Z z) (1 # 2)) eqn:E.
    + apply Qeq_alt in E. lra.
    + lia.
    + apply Qgt_alt in E. lra.
  - destruct (py_round_cases x) as [-> | ->]; lia.
Qed.

Lemma py_round_comp (x y : Q) : x == y → py_round x = py_round y.
Proof.
  intros H. unfold py_round. rewrite (Qfloor_comp _ _ H).
  assert (x - inject_Z (Qfloor y) == y - inject_Z (Qfloor y)) as -> by lra.
  done.
Qed.

(** Rounding moves a number by at most half a unit of the last digit. *)
Lemma round_ndigits_close (x : Q) (n : nat) :
  Qabs (round_ndigits x n - x) <= (1 # 2) / inject_Z (10 ^ Z.of_nat n).
Proof.
  unfold round_ndigits.
  assert (0 < 10 ^ Z.of_nat n)%Z as Hpos by lia.
  set (p := (10 ^ Z.of_nat n)%Z) in *.
  assert (0 < inject_Z p) as HposQ.
  { change 0 with (inject_Z 0). by rewrite <- Zlt_Qlt. }
  pose proof (py_round_lower (x * inject_Z p)) as Hlo.
  pose proof (py_round_upper (x * inject_Z p)) as Hhi.
  set (r := inject_Z (py_round (x * inject_Z p))) in *.
  unfold Qdiv. set (ip := / inject_Z p).
  assert (0 < ip) as Hip by (by apply Qinv_lt_0_compat).
  assert (x * inject_Z p * ip == x) as Hx by (unfold ip; field; lra).
  assert ((x * inject_Z p - (1 # 2)) * ip <= r * ip) as Hlo'
    by (apply Qmult_le_compat_r; lra).
  assert (r * ip <= (x * inject_Z p + (1 # 2)) * ip) as Hhi'
    by (apply Qmult_le_compat_r; lra).
  apply Qabs_Qle_condition. split; lra.
Qed.

(** ** The composite score *)

Lemma inject_Z_le (a b : Z) : (a ≤ b)%Z → inject_Z a <= inject_Z b.
Proof. intros H. by rewrite <- Zle_Qle. Qed.

Lemma score_component_range (credit_score : Z) :
  (300 ≤ credit_score ≤ 900)%Z →
  40 # 3 <= score_component credit_score <= 40.
Proof.
  intros [Hlo Hhi]. apply inject_Z_le in Hlo, Hhi.
  change (inject_Z 300) with 300 in Hlo. change (inject_Z 900) with 900 in Hhi.
  unfold score_component. qdiv. split; lra.
Qed.

Lemma emi_component_range (ratio : Q) :
  0 <= ratio → 0 <= emi_component ratio <= 30.
Proof.
  intros H. unfold emi_component.
  destruct (py_max_cases 0 ((1 - ratio / 100) * 30)) as [[Hc ->] | [Hc ->]];
    qdiv; split; lra.
Qed.

Lemma loan_component_range (active_loans : Z) :
  (0 ≤ active_loans)%Z → 0 <= loan_component active_loans <= 15.
Proof.
  intros H. apply inject_Z_le in H. change (inject_Z 0) with 0 in H.
  unfold loan_component.
  destruct (py_max_cases 0 ((1 - inject_Z active_loans / 10) * 15))
    as [[Hc ->] | [Hc ->]]; qdiv; split; lra.
Qed.

Lemma payment_component_range (missed_payments : Z) :
  (0 ≤ missed_payments)%Z → 0 <= payment_component missed_payments <= 15.
Proof.
  intros H. apply inject_Z_le in H. change (inject_Z 0) with 0 in H.
  unfold payment_component.
  destruct (py_max_cases 0 ((1 - inject_Z missed_payments / 5) * 15))
    as [[Hc ->] | [Hc ->]]; qdiv; split; lra.
Qed.

(** C1.  For a credit score in [300, 900], an EMI-to-income ratio in
    [0, 100] and non-negative counts of active loans and missed payments,
    [calculate_chi] returns an integer between 0 and 100. *)
Theorem calculate_chi_range (credit_score : Z) (emi_to_income_ratio : Q)
    (active_loans missed_payments : Z) :
  (300 ≤ credit_score ≤ 900)%Z →
  0 <= emi_to_income_ratio <= 100 →
  (0 ≤ active_loans)%Z →
  (0 ≤ missed_payments)%Z →
  (0 ≤ calculate_chi credit_score emi_to_income_ratio active_loans
         missed_payments ≤ 100)%Z.
Proof.
  intros Hs [Hr _] Hl Hm.
  pose proof (score_component_range _ Hs).
  pose proof (emi_component_range _ Hr).
  pose proof (loan_component_range _ Hl).
  pose proof (payment_component_range _ Hm).
  unfold calculate_chi. split.
  - apply py_round_ge_int. change (inject_Z 0) with 0. lra.
  - apply py_round_le_int. change (inject_Z 100) with 100. lra.
Qed.

Lemma calculate_chi_range_witness :
  (0 ≤ calculate_chi 742 (240 # 17) 2 0 ≤ 100)%Z.
Proof.
  apply (calculate_chi_range 742 (240 # 17) 2 0); [lia | split; lra | lia | lia].
Defined.

(** The pinned values of the specification. *)
Example calculate_chi_all_maxed : calculate_chi 900 0 0 0 = 100%Z.
Proof. reflexivity. Qed.

Example calculate_chi_credit_only : calculate_chi 300 100 10 5 = 13%Z.
Proof. reflexivity. Qed.

(** C3.  [get_risk_level] is "low" exactly from 70 up, "medium" exactly on
    40..69 and "high" exactly below 40; the four boundary values 70, 69, 40
    and 39 fall as the thresholds say. *)
Theorem get_risk_level_thresholds :
  (∀ chi_score : Z,
     (get_risk_level chi_score = "low" ↔ (70 ≤ chi_score)%Z) ∧
     (get_risk_level chi_score = "medium" ↔ (40 ≤ chi_score < 70)%Z) ∧
     (get_risk_level chi_score = "high" ↔ (chi_score < 40)%Z)) ∧
  get_risk_level 70 = "low" ∧
  get_risk_level 69 = "medium" ∧
  get_risk_level 40 = "medium" ∧
  get_risk_level 39 = "high".
Proof.
  split; [|by repeat split].
  intros chi_score. unfold get_risk_level.
  destruct (Z.leb_spec 70 chi_score); [|destruct (Z.leb_spec 40 chi_score)];
    repeat split; intros; try done; try lia.
Qed.

(** ** The loan calculator *)

Lemma round_ndigits_nonneg (x : Q) (n : nat) : 0 <= x → 0 <= round_ndigits x n.
Proof.
  intros H. unfold round_ndigits.
  assert (0 < 10 ^ Z.of_nat n)%Z as Hpos by lia.
  assert (0 < inject_Z (10 ^ Z.of_nat n)) as HposQ.
  { change 0 with (inject_Z 0). by rewrite <- Zlt_Qlt. }
  apply Qle_shift_div_l; [done|]. rewrite Qmult_0_l.
  change 0 with (inject_Z 0). apply inject_Z_le, py_round_ge_int.
  change (inject_Z 0) with 0. by apply Qmult_le_0_compat; [|apply Qlt_le_weak].
Qed.

Lemma round_ndigits_comp (x y : Q) (n : nat) :
  x == y → round_ndigits x n == round_ndigits y n.
Proof.
  intros H. unfold round_ndigits.
  set (p := inject_Z (10 ^ Z.of_nat n)).
  rewrite (py_round_comp (x * p) (y * p)); [done | by rewrite H].
Qed.

(** The three paths of [calculate_emi], in the order the code tests them. *)
Lemma calculate_emi_paths (principal annual_rate : Q) (tenure_months : Z) :
  (principal <= 0 ∨ (tenure_months ≤ 0)%Z →
     calculate_emi principal annual_rate tenure_months = 0) ∧
  (0 < principal → (0 < tenure_months)%Z → annual_rate <= 0 →
     calculate_emi principal annual_rate tenure_months
     = principal / inject_Z tenure_months) ∧
  (0 < principal → (0 < tenure_months)%Z → 0 < annual_rate →
     calculate_emi principal annual_rate tenure_months
     = let monthly_rate := annual_rate / 12 / 100 in
       round_ndigits
         ((principal * monthly_rate * Qpower (1 + monthly_rate) tenure_months)
          / (Qpower (1 + monthly_rate) tenure_months - 1)) 2).
Proof.
  unfold calculate_emi. repeat split.
  - intros [H | H].
    + apply Qleb_le in H. by rewrite H.
    + apply Z.leb_le in H. rewrite H. by rewrite orb_true_r.
  - intros Hp Ht Hr.
    apply Qleb_gt in Hp. apply Z.leb_gt in Ht. apply Qleb_le in Hr.
    by rewrite Hp, Ht, Hr.
  - intros Hp Ht Hr.
    apply Qleb_gt in Hp, Hr. apply Z.leb_gt in Ht.
    by rewrite Hp, Ht, Hr.
Qed.

(** C2, at the input that breaks it.  [calculate_emi(100, 0, 3)] takes the
    interest-free path and returns 100/3 as it is: rounding that value to 2
    decimal places gives 33.33, a different number. *)
Theorem calculate_emi_interest_free_unrounded :
  calculate_emi 100 0 3 == 100 # 3 ∧
  round_ndigits (calculate_emi 100 0 3) 2 == 3333 # 100 ∧
  ¬ round_ndigits (calculate_emi 100 0 3) 2 == calculate_emi 100 0 3.
Proof. by vm_compute. Qed.

(** The annuity path does round: its result is a whole number of
    hundredths. *)
Lemma calculate_emi_annuity_rounded (principal annual_rate : Q) (tenure_months : Z) :
  0 < principal → (0 < tenure_months)%Z → 0 < annual_rate →
  ∃ cents : Z,
    calculate_emi principal annual_rate tenure_months = inject_Z cents / 100.
Proof.
  intros Hp Ht Hr.
  destruct (calculate_emi_paths principal annual_rate tenure_months)
    as (_ & _ & ->); try done.
  eexists. reflexivity.
Qed.

(** Powers of a base at least one. *)
Lemma Qpower_succ (b : Q) (k : nat) :
  0 < b → Qpower b (Z.of_nat (S k)) == b * Qpower b (Z.of_nat k).
Proof.
  intros Hb. rewrite Nat2Z.inj_succ, <- Z.add_1_l.
  rewrite Qpower_plus by lra. by rewrite Qpower_1_r.
Qed.

Lemma Qpower_ge_1 (b : Q) (k : nat) : 1 <= b → 1 <= Qpower b (Z.of_nat k).
Proof. intros Hb. apply Qpower_1_le; [done | lia]. Qed.

(** Over [n = k + 1] months at monthly rate [i], the payments of the annuity
    exceed the principal by at least one month of interest:
    [n i q >= (1 + i) (q - 1)] for [q = (1 + i)^n]. *)
Lemma annuity_interest_bound (i : Q) (k : nat) :
  0 <= i →
  (1 + i) * (Qpower (1 + i) (Z.of_nat (S k)) - 1)
  <= inject_Z (Z.of_nat (S k)) * i * Qpower (1 + i) (Z.of_nat (S k)).
Proof.
  intros Hi. induction k as [|k IH].
  - change (Qpower (1 + i) (Z.of_nat 1)) with (Qpower (1 + i) 1).
    rewrite Qpower_1_r. change (inject_Z (Z.of_nat 1)) with 1. nra.
  - pose proof (Qpower_ge_1 (1 + i) (S k)) as Hq.
    rewrite (Qpower_succ _ (S k)) by lra.
    rewrite (Nat2Z.inj_succ (S k)), <- Z.add_1_l, inject_Z_plus.
    change (inject_Z 1) with 1.
    set (q := Qpower (1 + i) (Z.of_nat (S k))) in *.
    set (N := inject_Z (Z.of_nat (S k))) in *.
    assert (1 <= q) as Hq1 by (apply Hq; lra).
    nra.
Qed.

Lemma round_ndigits_2_lower (x : Q) : x - (1 # 200) <= round_ndigits x 2.
Proof.
  pose proof (round_ndigits_close x 2) as H.
  apply Qabs_Qle_condition in H. destruct H as [H _].
  change ((1 # 2) / inject_Z (10 ^ Z.of_nat 2)) with ((1 # 2) / 100) in H.
  qdiv. lra.
Qed.

(** The exact annuity payment [a], paid [n] times, returns the principal and
    at least one month of interest on it. *)
Lemma annuity_total_lower (P i : Q) (n : Z) :
  0 < P → 0 < i → (0 < n)%Z →
  P + P * i
  <= (P * i * Qpower (1 + i) n) / (Qpower (1 + i) n - 1) * inject_Z n.
Proof.
  intros HP Hi Hn.
  assert (∃ k, n = Z.of_nat (S k)) as [k ->].
  { exists (Z.to_nat (n - 1)). lia. }
  pose proof (annuity_interest_bound i k (Qlt_le_weak _ _ Hi)) as Hb.
  assert (1 < Qpower (1 + i) (Z.of_nat (S k))) as Hq
    by (apply Qpower_1_lt; [lra | lia]).
  set (q := Qpower (1 + i) (Z.of_nat (S k))) in *.
  set (N := inject_Z (Z.of_nat (S k))) in *.
  set (a := P * i * q / (q - 1)).
  assert (a * (q - 1) == P * i * q) as Ha by (unfold a; field; lra).
  apply (Qmult_lt_0_le_reg_r _ _ (q - 1)); [lra|].
  assert (a * N * (q - 1) == P * (N * i * q)) as ->.
  { transitivity (a * (q - 1) * N); [ring | rewrite Ha; ring]. }
  assert ((P + P * i) * (q - 1) == P * ((1 + i) * (q - 1))) as -> by ring.
  apply Qmult_le_l; [done | exact Hb].
Qed.





(** ** The breakdown *)

Lemma get_chi_breakdown_total (credit_score : Z) (emi_to_income_ratio : Q)
    (active_loans missed_payments : Z) :
  breakdown_total (get_chi_breakdown credit_score emi_to_income_ratio
                     active_loans missed_payments)
  = round_ndigits (score_component credit_score) 1
    + round_ndigits (emi_component emi_to_income_ratio) 1
    + round_ndigits (loan_component active_loans) 1
    + round_ndigits (payment_component missed_payments) 1.
Proof. reflexivity. Qed.

Lemma round_ndigits_1_close (x : Q) :
  - (1 # 20) <= round_ndigits x 1 - x <= 1 # 20.
Proof.
  pose proof (round_ndigits_close x 1) as H.
  apply Qabs_Qle_condition in H.
  change ((1 # 2) / inject_Z (10 ^ Z.of_nat 1)) with ((1 # 2) / 10) in H.
  qdiv. lra.
Qed.

(** C7, as the code has it.  Each component score of the breakdown is
    rounded to 1 decimal place on its own, so the four of them sum to within
    0.2 of the unrounded total, and their sum rounded to an integer is within
    1 of the score [calculate_chi] returns. *)
Theorem breakdown_sum_near_chi (credit_score : Z) (emi_to_income_ratio : Q)
    (active_loans missed_payments : Z) :
  let total := breakdown_total (get_chi_breakdown credit_score
                 emi_to_income_ratio active_loans missed_payments) in
  let chi := score_component credit_score + emi_component emi_to_income_ratio
             + loan_component active_loans
             + payment_component missed_payments in
  calculate_chi credit_score emi_to_income_ratio active_loans missed_payments
    = py_round chi ∧
  Qabs (total - chi) <= 2 # 10 ∧
  (Z.abs (py_round total
          - calculate_chi credit_score emi_to_income_ratio active_loans
              missed_payments) ≤ 1)%Z.
Proof.
  cbv zeta. rewrite get_chi_breakdown_total. unfold calculate_chi.
  destruct (round_ndigits_1_close (score_component credit_score)).
  destruct (round_ndigits_1_close (emi_component emi_to_income_ratio)).
  destruct (round_ndigits_1_close (loan_component active_loans)).
  destruct (round_ndigits_1_close (payment_component missed_payments)).
  set (total := _ + _ + _ + round_ndigits _ 1).
  set (chi := _ + _ + _ + payment_component _).
  assert (- (2 # 10) <= total - chi <= 2 # 10) as Hclose
    by (unfold total, chi; split; lra).
  split; [done|]. split; [apply Qabs_Qle_condition; exact Hclose|].
  destruct Hclose as [Hclose1 Hclose2].
  pose proof (py_round_lower total). pose proof (py_round_upper total).
  pose proof (py_round_lower chi). pose proof (py_round_upper chi).
  assert (inject_Z (py_round total) < inject_Z (py_round chi + 2)) as Hup
    by (rewrite inject_Z_plus; change (inject_Z 2) with 2; lra).
  assert (inject_Z (py_round chi) < inject_Z (py_round total + 2)) as Hdn
    by (rewrite inject_Z_plus; change (inject_Z 2) with 2; lra).
  rewrite <- Zlt_Qlt in Hup, Hdn. lia.
Qed.

(** C7 as stated fails.  At [(451, 0, 1, 0)] the component scores are 20.0,
    30.0, 13.5 and 15.0: they sum to 78.5, which rounds to 78, while
    [calculate_chi] rounds 78.544... to 79. *)
Lemma breakdown_sum_differs_from_chi :
  breakdown_total (get_chi_breakdown 451 0 1 0) == 157 # 2 ∧
  py_round (breakdown_total (get_chi_breakdown 451 0 1 0)) = 78%Z ∧
  calculate_chi 451 0 1 0 = 79%Z ∧
  ¬ breakdown_total (get_chi_breakdown 451 0 1 0)
    == inject_Z (calculate_chi 451 0 1 0).
Proof. by vm_compute. Qed.

(** ** The what-if simulator *)

Lemma find_action_None (actions : list simulation_action) (id : string) :
  find_action actions id = None ↔ id ∉ map action_id actions.
Proof.
  induction actions as [|a l IH]; simpl.
  - split; [intros _; apply not_elem_of_nil | done].
  - rewrite not_elem_of_cons. destruct (String.eqb_spec (action_id a) id).
    + split; [done | intros [? _]; congruence].
    + rewrite IH. split; [intros; split; congruence | by intros [_ ?]].
Qed.

Lemma find_action_Some (actions : list simulation_action) (id : string)
    (action : simulation_action) :
  find_action actions id = Some action →
  action ∈ actions ∧ action_id action = id.
Proof.
  induction actions as [|a l IH]; simpl; [done|].
  destruct (String.eqb_spec (action_id a) id).
  - intros [= <-]. split; [apply list_elem_of_here | done].
  - intros H. destruct (IH H). split; [by apply list_elem_of_further | done].
Qed.

Lemma clamp_score (x : Z) :
  py_max_int 300 (py_min_int 900 x) = Z.max 300 (Z.min 900 x).
Proof.
  unfold py_max_int, py_min_int.
  destruct (Z.ltb_spec x 900);
    [destruct (Z.ltb_spec 300 x) | destruct (Z.ltb_spec 300 900)]; lia.
Qed.

(** The ids of the action catalog are pairwise distinct, so an id names at
    most one action. *)
Lemma SIMULATION_ACTIONS_ids_distinct :
  NoDup (map action_id SIMULATION_ACTIONS).
Proof. compute_done. Qed.

(** C4.  [simulate_action] returns [None] exactly for the ids that are not in
    the action catalog.  For an id of the catalog it returns a result whose
    projected score is the current score plus the impact of that action,
    clamped to [300, 900].  Closing a loan at 700 projects 715, and an unknown
    id is reported as not found. *)
Theorem simulate_action_spec :
  (∀ (id : string) (score : Z),
     (simulate_action id score = None
      ↔ id ∉ map action_id SIMULATION_ACTIONS) ∧
     (id ∈ map action_id SIMULATION_ACTIONS →
      ∃ action result,
        action ∈ SIMULATION_ACTIONS ∧ action_id action = id ∧
        simulate_action id score = Some result ∧
        projected_score result
        = Z.max 300 (Z.min 900 (score + action_impact action)) ∧
        (300 ≤ projected_score result ≤ 900)%Z)) ∧
  projected_score <$> simulate_action "close_loan" 700 = Some 715%Z ∧
  simulate_action "unknown_id" 700 = None.
Proof.
  split; [|by split].
  intros id score. unfold simulate_action, get_simulation_action.
  pose proof (find_action_None SIMULATION_ACTIONS id) as Hnone.
  destruct (find_action SIMULATION_ACTIONS id) as [action|] eqn:Hfind.
  - apply find_action_Some in Hfind as [Hin Hid]. split.
    + split; [done | intros H; by apply Hnone in H].
    + intros _. eexists action, _. repeat split; try done; simpl.
      * apply clamp_score.
      * rewrite clamp_score. lia.
      * rewrite clamp_score. lia.
  - split; [by rewrite <- Hnone | intros H; by apply Hnone in H].
Qed.

(** Near the upper boundary the clamp takes over. *)
Example simulate_action_clamps :
  projected_score <$> simulate_action "reduce_utilization" 890 = Some 900%Z ∧
  projected_score <$> simulate_action "miss_emi" 890 = Some 855%Z ∧
  projected_score <$> simulate_action "miss_emi" 310 = Some 300%Z.
Proof. by repeat split. Qed.

(** ** Sorting by key *)

Section Sorting.

Context {A : Type} (key : A → Z).

Lemma insert_by_key_perm (x : A) (l : list A) : insert_by_key key x l ≡ₚ x :: l.
Proof.
  induction l as [|y l IH]; simpl; [done|].
  destruct (key x <=? key y)%Z; [done|].
  rewrite IH. apply perm_swap.
Qed.

Lemma sort_by_key_perm (l : list A) : sort_by_key key l ≡ₚ l.
Proof.
  induction l as [|x l IH]; simpl; [done|].
  rewrite insert_by_key_perm. by rewrite IH.
Qed.

Lemma insert_by_key_sorted (x : A) (l : list A) :
  StronglySorted (λ a b, key a ≤ key b)%Z l →
  StronglySorted (λ a b, key a ≤ key b)%Z (insert_by_key key x l).
Proof.
  induction 1 as [|y l Hs IH Hy]; simpl.
  - by repeat constructor.
  - destruct (Z.leb_spec (key x) (key y)).
    + constructor; [by constructor|].
      constructor; [done|]. eapply Forall_impl; [exact Hy|].
      simpl. intros. lia.
    + constructor; [done|].
      rewrite insert_by_key_perm. constructor; [lia | done].
Qed.

Lemma sort_by_key_sorted (l : list A) :
  StronglySorted (λ a b, key a ≤ key b)%Z (sort_by_key key l).
Proof.
  induction l as [|x l IH]; simpl; [constructor|].
  by apply insert_by_key_sorted.
Qed.

(** Stability: among the elements of one key, the order is the one they came
    in. *)
Lemma insert_by_key_filter (k : Z) (x : A) (l : list A) :
  filter (λ a, key a = k) (insert_by_key key x l)
  = filter (λ a, key a = k) (x :: l).
Proof.
  induction l as [|y l IH]; simpl; [done|].
  destruct (Z.leb_spec (key x) (key y)); [done|].
  rewrite filter_cons, IH, !filter_cons.
  repeat case_decide; try done; lia.
Qed.

Lemma sort_by_key_stable (k : Z) (l : list A) :
  filter (λ a, key a = k) (sort_by_key key l) = filter (λ a, key a = k) l.
Proof.
  induction l as [|x l IH]; simpl; [done|].
  rewrite insert_by_key_filter, !filter_cons, IH. done.
Qed.

Lemma filter_none (P : A → Prop) `{!∀ x, Decision (P x)} (l : list A) :
  Forall (λ a, ¬ P a) l → filter P l = [].
Proof.
  induction 1 as [|y l Hy _ IH]; [done|].
  by rewrite filter_cons_False.
Qed.

(** A list sorted by a key that only takes the values 0, 1 and 2 is its
    elements of key 0, then those of key 1, then those of key 2. *)
Lemma sorted_three_keys (l : list A) :
  Forall (λ a, 0 ≤ key a ≤ 2)%Z l →
  StronglySorted (λ a b, key a ≤ key b)%Z l →
  l = filter (λ a, key a = 0%Z) l ++ filter (λ a, key a = 1%Z) l
      ++ filter (λ a, key a = 2%Z) l.
Proof.
  intros Hr Hs. induction Hs as [|x l Hs IH Hx]; [done|].
  apply Forall_cons in Hr as [Hkx Hr]. specialize (IH Hr).
  rewrite !filter_cons.
  destruct (decide (key x = 0%Z)) as [E0 | E0].
  - rewrite decide_False, decide_False by lia. simpl. by rewrite <- IH.
  - destruct (decide (key x = 1%Z)) as [E1 | E1].
    + rewrite decide_False by lia.
      rewrite (filter_none (λ a, key a = 0%Z)) in IH |- *;
        [| eapply Forall_impl; [exact Hx | simpl; intros; lia] ..].
      simpl in *. by rewrite <- IH.
    + rewrite decide_True by lia.
      rewrite (filter_none (λ a, key a = 0%Z)) in IH |- *;
        [| eapply Forall_impl; [exact Hx | simpl; intros; lia] ..].
      rewrite (filter_none (λ a, key a = 1%Z)) in IH |- *;
        [| eapply Forall_impl; [exact Hx | simpl; intros; lia] ..].
      simpl in *. by rewrite <- IH.
Qed.

Lemma sort_by_key_three_keys (l : list A) :
  Forall (λ a, 0 ≤ key a ≤ 2)%Z l →
  sort_by_key key l
  = filter (λ a, key a = 0%Z) l ++ filter (λ a, key a = 1%Z) l
    ++ filter (λ a, key a = 2%Z) l.
Proof.
  intros Hr.
  rewrite <- !(sort_by_key_stable _ l).
  apply sorted_three_keys; [|apply sort_by_key_sorted].
  by rewrite sort_by_key_perm.
Qed.

End Sorting.

(** ** The rule engine *)

Section EvaluationFacts.

Context (profile kwargs : gmap string value) (now : string).

Local Abbreviation alert_of := (rule_alert profile kwargs now).
Local Abbreviation collected rules := (collect_alerts rules profile kwargs now).

Lemma fold_loop_step (rules : list risk_rule) (acc : list alert) :
  fold_left (loop_step profile kwargs now) rules acc
  = acc ++ omap alert_of rules.
Proof.
  revert acc. induction rules as [|rule rules IH]; intros acc; simpl.
  - by rewrite app_nil_r.
  - rewrite IH. unfold loop_step, rule_alert.
    destruct (try_rule profile kwargs now rule) as [[a|]|]; [|done..].
    by rewrite <- app_assoc.
Qed.

(** The loop keeps, in catalog order, the alerts of the rules that trigger
    and render. *)
Lemma collect_alerts_omap (rules : list risk_rule) :
  collected rules = omap alert_of rules.
Proof. apply fold_loop_step. Qed.

Lemma rule_alert_Some (rule : risk_rule) (a : alert) :
  alert_of rule = Some a ↔
  rule_check rule profile = Ok true ∧
  ∃ description,
    py_format (rule_description_template rule) kwargs = Ok description ∧
    a = Alert (rule_id rule) (rule_title rule) description
          (rule_severity rule) (rule_rule rule) now true.
Proof.
  unfold rule_alert, try_rule.
  destruct (rule_check rule profile) as [[|]|e]; simpl;
    [destruct (py_format _ _) as [d|e]; simpl|..].
  - split.
    + intros [= <-]. eauto.
    + intros [_ (d' & [= <-] & ->)]. done.
  - split; [done | by intros [_ (? & ? & _)]].
  - split; [done | by intros [? _]].
  - split; [done | by intros [? _]].
Qed.

(** A rule whose predicate raises, or whose description fails to render
    once it has triggered, adds nothing. *)
Lemma rule_alert_raises (rule : risk_rule) :
  raises (rule_check rule profile) ∨
  (rule_check rule profile = Ok true ∧
   raises (py_format (rule_description_template rule) kwargs)) →
  alert_of rule = None.
Proof.
  unfold rule_alert, try_rule.
  intros [H | [-> H]]; simpl.
  - by destruct (rule_check rule profile).
  - by destruct (py_format _ _).
Qed.

Lemma collect_alerts_skip (pre post : list risk_rule) (rule : risk_rule) :
  alert_of rule = None →
  collected (pre ++ rule :: post) = collected (pre ++ post).
Proof.
  intros H. rewrite !collect_alerts_omap, !omap_app. simpl. by rewrite H.
Qed.

Lemma collect_alerts_elem_of (rules : list risk_rule) (a : alert) :
  a ∈ collected rules ↔ ∃ rule, rule ∈ rules ∧ alert_of rule = Some a.
Proof. rewrite collect_alerts_omap. apply list_elem_of_omap. Qed.

Lemma collect_alerts_ids (rules : list risk_rule) :
  alert_id <$> collected rules `sublist_of` rule_id <$> rules.
Proof.
  rewrite collect_alerts_omap.
  induction rules as [|rule rules IH]; simpl; [done|].
  destruct (alert_of rule) as [a|] eqn:E; simpl.
  - apply rule_alert_Some in E as (_ & d & _ & ->). simpl.
    by apply sublist_skip.
  - by apply sublist_cons.
Qed.

Lemma collect_alerts_from_rules (rules : list risk_rule) :
  Forall (λ a, ∃ rule, rule ∈ rules ∧ rule_id rule = alert_id a ∧
                       rule_severity rule = alert_severity a ∧
                       rule_check rule profile = Ok true)
         (collected rules).
Proof.
  apply Forall_forall. intros a Ha.
  apply collect_alerts_elem_of in Ha as (rule & Hin & Hrule).
  apply rule_alert_Some in Hrule as (Hc & d & _ & ->). simpl. eauto.
Qed.

End EvaluationFacts.

(** ** The profile of a call *)

Section Profile.

Context (credit_score : Z) (monthly_income monthly_expenses existing_emis : Q)
        (credit_utilization active_loans score_trend : Z).

Local Abbreviation the_profile :=
  (build_profile credit_score monthly_income monthly_expenses existing_emis
     credit_utilization active_loans score_trend).

Lemma profile_emi_ratio (dflt : value) :
  dict_get the_profile "emi_ratio" dflt
  = emi_ratio_of monthly_income existing_emis.
Proof. reflexivity. Qed.

Lemma profile_credit_score (dflt : value) :
  dict_get the_profile "credit_score" dflt = VInt credit_score.
Proof. reflexivity. Qed.

Lemma profile_monthly_income (dflt : value) :
  dict_get the_profile "monthly_income" dflt = VFloat monthly_income.
Proof. reflexivity. Qed.

End Profile.

Lemma py_gt_lt (a b : value) : py_gt a b = true ↔ to_Q b < to_Q a.
Proof. apply Qltb_lt. Qed.

Lemma py_lt_lt (a b : value) : py_lt a b = true ↔ to_Q a < to_Q b.
Proof. apply Qltb_lt. Qed.

Lemma emi_ratio_of_nonpositive_income (monthly_income existing_emis : Q) :
  monthly_income <= 0 → emi_ratio_of monthly_income existing_emis = VInt 100.
Proof.
  intros H. unfold emi_ratio_of. apply Qltb_ge in H. by rewrite H.
Qed.

Lemma disposable_pct_of_nonpositive_income
    (monthly_income monthly_expenses existing_emis : Q) :
  monthly_income <= 0 →
  disposable_pct_of monthly_income monthly_expenses existing_emis = VInt 0.
Proof.
  intros H. unfold disposable_pct_of. apply Qltb_ge in H. by rewrite H.
Qed.

(** The severities of the catalog are the three the sort knows. *)
Lemma RISK_RULES_severities :
  Forall (λ rule, rule_severity rule ∈ ["high"; "medium"; "low"]) RISK_RULES.
Proof. repeat constructor. Qed.

Lemma RISK_RULES_ids_distinct : NoDup (rule_id <$> RISK_RULES).
Proof. compute_done. Qed.

(** The output holds the same alerts as the loop collected. *)
Lemma generate_risk_alerts_over_elem_of (rules : list risk_rule) (now : string)
    (credit_score : Z) (monthly_income monthly_expenses existing_emis : Q)
    (credit_utilization active_loans score_trend : Z) (a : alert) :
  a ∈ generate_risk_alerts_over rules now credit_score monthly_income
        monthly_expenses existing_emis credit_utilization active_loans
        score_trend
  ↔ ∃ rule, rule ∈ rules ∧
      rule_alert
        (build_profile credit_score monthly_income monthly_expenses
           existing_emis credit_utilization active_loans score_trend)
        (format_kwargs credit_score monthly_income monthly_expenses
           existing_emis credit_utilization active_loans score_trend)
        now rule = Some a.
Proof.
  unfold generate_risk_alerts_over. cbv zeta.
  rewrite sort_by_key_perm. apply collect_alerts_elem_of.
Qed.

(** An alert of the output comes from the catalog rule of the same id, and
    the predicate of that rule held. *)
Lemma generate_risk_alerts_triggered (now : string)
    (credit_score : Z) (monthly_income monthly_expenses existing_emis : Q)
    (credit_utilization active_loans score_trend : Z) (id : string) :
  id ∈ alert_id <$> generate_risk_alerts now credit_score monthly_income
         monthly_expenses existing_emis credit_utilization active_loans
         score_trend →
  ∃ rule, rule ∈ RISK_RULES ∧ rule_id rule = id ∧
    rule_check rule
      (build_profile credit_score monthly_income monthly_expenses
         existing_emis credit_utilization active_loans score_trend)
    = Ok true.
Proof.
  intros H. apply list_elem_of_fmap in H as (a & -> & Ha).
  apply generate_risk_alerts_over_elem_of in Ha as (rule & Hin & Hrule).
  apply rule_alert_Some in Hrule as (Hc & d & _ & ->). eauto.
Qed.

(** Pick the rule of a given id out of the catalog. *)
Ltac catalog_rule H Hid :=
  unfold RISK_RULES in H;
  repeat (apply elem_of_cons in H as [-> | H]; [try discriminate Hid|]);
  try by apply elem_of_nil in H.

(** C9.  No call returns both the "high_emi_burden" and the
    "healthy_finances" alert: the first needs an EMI ratio above 40, the
    second one below 30, and both read the one ratio of the call. *)
Theorem high_emi_burden_excludes_healthy_finances (now : string)
    (credit_score : Z) (monthly_income monthly_expenses existing_emis : Q)
    (credit_utilization active_loans score_trend : Z) :
  let ids := alert_id <$> generate_risk_alerts now credit_score monthly_income
               monthly_expenses existing_emis credit_utilization active_loans
               score_trend in
  ¬ ("high_emi_burden" ∈ ids ∧ "healthy_finances" ∈ ids).
Proof.
  cbv zeta. intros [Hhigh Hhealthy].
  apply generate_risk_alerts_triggered in Hhigh as (r1 & Hin1 & Hid1 & Hc1).
  apply generate_risk_alerts_triggered in Hhealthy as (r2 & Hin2 & Hid2 & Hc2).
  catalog_rule Hin1 Hid1. catalog_rule Hin2 Hid2.
  simpl in Hc1, Hc2. rewrite !profile_emi_ratio in Hc1, Hc2.
  injection Hc1 as Hc1. injection Hc2 as Hc2.
  apply andb_true_iff in Hc2 as [Hc2 _].
  apply py_gt_lt in Hc1. apply py_lt_lt in Hc2.
  simpl in Hc1, Hc2. change (inject_Z 40) with 40 in Hc1.
  change (inject_Z 30) with 30 in Hc2. lra.
Qed.

Lemma check_disposable_nonpositive_income
    (credit_score : Z) (monthly_income monthly_expenses existing_emis : Q)
    (credit_utilization active_loans score_trend : Z) :
  monthly_income <= 0 →
  _check_disposable
    (build_profile credit_score monthly_income monthly_expenses existing_emis
       credit_utilization active_loans score_trend)
  = Ok (VInt 0).
Proof.
  intros H. unfold _check_disposable. cbv zeta.
  rewrite profile_monthly_income. unfold py_le. simpl to_Q.
  apply Qleb_le in H. change (inject_Z 0) with 0. by rewrite H.
Qed.

(** C10.  With a monthly income of zero or less the EMI ratio of the profile
    is the sentinel 100 and the disposable percentage is 0, and the output
    holds the "high_emi_burden", "very_high_emi" and "low_disposable_income"
    alerts, whatever the EMIs and expenses are. *)
Theorem nonpositive_income_alerts (now : string)
    (credit_score : Z) (monthly_income monthly_expenses existing_emis : Q)
    (credit_utilization active_loans score_trend : Z) :
  monthly_income <= 0 →
  let profile := build_profile credit_score monthly_income monthly_expenses
                   existing_emis credit_utilization active_loans score_trend in
  let ids := alert_id <$> generate_risk_alerts now credit_score monthly_income
               monthly_expenses existing_emis credit_utilization active_loans
               score_trend in
  profile !! "emi_ratio" = Some (VInt 100) ∧
  profile !! "disposable_pct" = Some (VInt 0) ∧
  "high_emi_burden" ∈ ids ∧
  "very_high_emi" ∈ ids ∧
  "low_disposable_income" ∈ ids.
Proof.
  intros Hinc. cbv zeta.
  pose proof (emi_ratio_of_nonpositive_income _ existing_emis Hinc) as Hratio.
  pose proof (disposable_pct_of_nonpositive_income _ monthly_expenses
                existing_emis Hinc) as Hpct.
  pose proof (check_disposable_nonpositive_income credit_score _
                monthly_expenses existing_emis credit_utilization active_loans
                score_trend Hinc) as Hdisp.
  split; [by rewrite <- Hratio|]. split; [by rewrite <- Hpct|].
  assert (∀ rule description,
            rule ∈ RISK_RULES →
            rule_check rule
              (build_profile credit_score monthly_income monthly_expenses
                 existing_emis credit_utilization active_loans score_trend)
            = Ok true →
            py_format (rule_description_template rule)
              (format_kwargs credit_score monthly_income monthly_expenses
                 existing_emis credit_utilization active_loans score_trend)
            = Ok description →
            rule_id rule
            ∈ alert_id <$> generate_risk_alerts now credit_score monthly_income
                monthly_expenses existing_emis credit_utilization active_loans
                score_trend) as Hadd.
  { intros rule description Hin Hc Hd. apply list_elem_of_fmap.
    eexists (Alert _ _ _ _ _ _ _). split; [reflexivity|].
    apply generate_risk_alerts_over_elem_of. exists rule. split; [done|].
    apply rule_alert_Some. eauto. }
  unfold format_kwargs in Hadd. rewrite Hratio, Hpct in Hadd.
  repeat split.
  - eapply (Hadd (RiskRule "high_emi_burden" _ _ _ _ _)).
    + unfold RISK_RULES. apply list_elem_of_here.
    + simpl. by rewrite profile_emi_ratio, Hratio.
    + by vm_compute.
  - eapply (Hadd (RiskRule "very_high_emi" _ _ _ _ _)).
    + unfold RISK_RULES. do 1 apply list_elem_of_further. apply list_elem_of_here.
    + simpl. by rewrite profile_emi_ratio, Hratio.
    + by vm_compute.
  - eapply (Hadd (RiskRule "low_disposable_income" _ _ _ _ _)).
    + unfold RISK_RULES. do 6 apply list_elem_of_further. apply list_elem_of_here.
    + simpl. by rewrite Hdisp.
    + by vm_compute.
Qed.

Lemma nonpositive_income_alerts_witness :
  let ids := alert_id <$> generate_risk_alerts "2024-12-15T00:00:00" 800 0
               20000 5000 20 1 0 in
  "high_emi_burden" ∈ ids ∧ "very_high_emi" ∈ ids ∧
  "low_disposable_income" ∈ ids.
Proof.
  assert (0 <= 0) as H by lra.
  exact (proj2 (proj2 (nonpositive_income_alerts "2024-12-15T00:00:00" 800 0
                         20000 5000 20 1 0 H))).
Defined.

(** ** Ordering of the output *)

Lemma severity_key_rank (a : alert) :
  severity_key a = severity_rank (alert_severity a).
Proof. reflexivity. Qed.

Lemma severity_rank_known (s : string) :
  s ∈ ["high"; "medium"; "low"] →
  (severity_rank s = 0%Z ↔ s = "high") ∧
  (severity_rank s = 1%Z ↔ s = "medium") ∧
  (severity_rank s = 2%Z ↔ s = "low").
Proof.
  intros H. repeat (apply elem_of_cons in H as [-> | H]);
    [| | | by apply elem_of_nil in H]; by repeat split.
Qed.

Lemma filter_severity (k : Z) (s : string) (l : list alert) :
  Forall (λ a, severity_key a = k ↔ alert_severity a = s) l →
  filter (λ a, severity_key a = k) l = filter (λ a, alert_severity a = s) l.
Proof.
  induction 1 as [|a l Ha _ IH]; [done|].
  rewrite !filter_cons, IH.
  destruct (decide (severity_key a = k)), (decide (alert_severity a = s));
    tauto.
Qed.

(** A list of known severities that is in rank order and holds each severity
    once is high, medium, low. *)
Lemma ranked_one_of_each (l : list string) :
  StronglySorted (λ s t, severity_rank s ≤ severity_rank t)%Z l →
  l ≡ₚ ["high"; "medium"; "low"] →
  l = ["high"; "medium"; "low"].
Proof.
  intros Hs Hp.
  apply (StronglySorted_unique_strong
           (λ s t, severity_rank s ≤ severity_rank t)%Z); [|done| |done].
  - intros s t Hin1 Hin2 H1 H2. rewrite Hp in Hin1.
    repeat (apply elem_of_cons in Hin1 as [-> | Hin1]);
      [| | | by apply elem_of_nil in Hin1];
      repeat (apply elem_of_cons in Hin2 as [-> | Hin2]);
      try (by apply elem_of_nil in Hin2); try done;
      vm_compute in H1, H2; congruence.
  - repeat constructor; by vm_compute.
Qed.

(** C5.  The output is the triggered alerts, which the loop collects in
    catalog order, regrouped as those of severity high, then medium, then
    low; within one severity the catalog order is kept.  When the alerts
    hold one of each severity, the severities of the output read high,
    medium, low. *)
Theorem generate_risk_alerts_order (now : string)
    (credit_score : Z) (monthly_income monthly_expenses existing_emis : Q)
    (credit_utilization active_loans score_trend : Z) :
  let output := generate_risk_alerts now credit_score monthly_income
                  monthly_expenses existing_emis credit_utilization
                  active_loans score_trend in
  ∃ triggered : list alert,
    alert_id <$> triggered `sublist_of` rule_id <$> RISK_RULES ∧
    Forall (λ a, ∃ rule, rule ∈ RISK_RULES ∧ rule_id rule = alert_id a ∧
                         rule_severity rule = alert_severity a) triggered ∧
    output = filter (λ a, alert_severity a = "high") triggered
             ++ filter (λ a, alert_severity a = "medium") triggered
             ++ filter (λ a, alert_severity a = "low") triggered ∧
    (alert_severity <$> output ≡ₚ ["high"; "medium"; "low"] →
     alert_severity <$> output = ["high"; "medium"; "low"]).
Proof.
  cbv zeta. unfold generate_risk_alerts, generate_risk_alerts_over. cbv zeta.
  set (profile := build_profile _ _ _ _ _ _ _).
  set (kwargs := format_kwargs _ _ _ _ _ _ _).
  set (triggered := collect_alerts RISK_RULES profile kwargs now).
  pose proof (collect_alerts_from_rules profile kwargs now RISK_RULES) as Hfrom.
  fold triggered in Hfrom.
  assert (Forall (λ a, alert_severity a ∈ ["high"; "medium"; "low"]) triggered)
    as Hknown.
  { eapply Forall_impl; [exact Hfrom|]. simpl.
    intros a (rule & Hin & _ & <- & _).
    by apply (proj1 (Forall_forall _ _) RISK_RULES_severities). }
  exists triggered. split; [apply collect_alerts_ids|]. split.
  { eapply Forall_impl; [exact Hfrom|]. simpl.
    intros a (rule & ? & ? & ? & _). eauto. }
  split.
  - rewrite sort_by_key_three_keys.
    + rewrite (filter_severity 0 "high"), (filter_severity 1 "medium"),
        (filter_severity 2 "low"); [done|..];
        (eapply Forall_impl; [exact Hknown|]); simpl; intros a Ha;
        rewrite severity_key_rank; by apply severity_rank_known.
    + eapply Forall_impl; [exact Hknown|]. simpl. intros a Ha.
      rewrite severity_key_rank.
      repeat (apply elem_of_cons in Ha as [-> | Ha]);
        [| | | by apply elem_of_nil in Ha]; by vm_compute.
  - apply ranked_one_of_each.
    apply (StronglySorted_fmap _ (λ a b, severity_key a ≤ severity_key b)%Z);
      [done | apply sort_by_key_sorted].
Qed.

Lemma generate_risk_alerts_order_witness :
  alert_severity <$> generate_risk_alerts "2024-12-15T00:00:00" 550 50000
                       20000 0 70 1 31
  = ["high"; "medium"; "low"].
Proof.
  destruct (generate_risk_alerts_order "2024-12-15T00:00:00" 550 50000 20000
              0 70 1 31) as (triggered & _ & _ & _ & H).
  apply H. vm_compute. reflexivity.
Defined.

(** The rule that is second in the catalog order of this call comes first
    in its output. *)
Example generate_risk_alerts_reorders :
  alert_id <$> generate_risk_alerts "2024-12-15T00:00:00" 550 50000 20000 0
                 70 1 31
  = ["low_credit_score"; "high_credit_utilization"; "score_improvement"].
Proof. reflexivity. Qed.

(** ** Isolation of a failing rule *)

(** The division of [_check_disposable] is guarded by the test on the
    income: it never divides by zero. *)
Lemma check_disposable_returns (profile : gmap string value) :
  ¬ raises (_check_disposable profile).
Proof.
  unfold _check_disposable. cbv zeta.
  destruct (py_le _ _) eqn:Hle; simpl; [tauto|].
  unfold py_truediv.
  destruct (Qeq_bool _ _) eqn:E; simpl; [|tauto].
  apply Qeq_bool_iff in E. apply Qleb_gt in Hle. simpl in Hle.
  change (inject_Z 0) with 0 in Hle. lra.
Qed.

(** With the catalog as it is, no predicate raises and every description
    renders: the [except] of the loop is never taken. *)
Lemma RISK_RULES_checks_return (profile : gmap string value) :
  Forall (λ rule, ¬ raises (rule_check rule profile)) RISK_RULES.
Proof.
  repeat constructor; simpl; try tauto.
  pose proof (check_disposable_returns profile) as H.
  by destruct (_check_disposable profile).
Qed.

Lemma RISK_RULES_descriptions_render
    (credit_score : Z) (monthly_income monthly_expenses existing_emis : Q)
    (credit_utilization active_loans score_trend : Z) :
  Forall (λ rule,
            ¬ raises (py_format (rule_description_template rule)
                        (format_kwargs credit_score monthly_income
                           monthly_expenses existing_emis credit_utilization
                           active_loans score_trend)))
         RISK_RULES.
Proof.
  unfold format_kwargs, emi_ratio_of, disposable_pct_of. cbv zeta.
  generalize (existing_emis / monthly_income * 100).
  generalize ((monthly_income - monthly_expenses - existing_emis)
              / monthly_income * 100).
  intros pct ratio.
  destruct (Qltb 0 monthly_income); repeat constructor; by vm_compute.
Qed.


Lemma raises_exception_raises {A} (r : result A) :
  raises_exception r → raises r.
Proof. by destruct r as [a|[]]. Qed.

(** C6.  Whatever the catalog, let one rule raise a Python exception, in its
    predicate or in the rendering of its description once it has triggered,
    the other rules being within the modelled fragment.  The call returns a
    list all the same.  The remaining rules are still evaluated: each of
    them that triggers and renders has its alert in the list.  Only they
    contribute: every alert of the list is the alert of a rule that
    triggered and rendered, which the failing rule did not.  And the list is
    the one returned for the catalog without the failing rule. *)
Theorem generate_risk_alerts_rule_isolated
    (pre post : list risk_rule) (rule : risk_rule) (now : string)
    (credit_score : Z) (monthly_income monthly_expenses existing_emis : Q)
    (credit_utilization active_loans score_trend : Z) :
  let profile := build_profile credit_score monthly_income monthly_expenses
                   existing_emis credit_utilization active_loans score_trend in
  let kwargs := format_kwargs credit_score monthly_income monthly_expenses
                  existing_emis credit_utilization active_loans score_trend in
  let output := generate_risk_alerts_over (pre ++ rule :: post) now
                  credit_score monthly_income monthly_expenses existing_emis
                  credit_utilization active_loans score_trend in
  let alert_for (other : risk_rule) (description : string) :=
    Alert (rule_id other) (rule_title other) description
          (rule_severity other) (rule_rule other) now true in
  raises_exception (rule_check rule profile) ∨
  (rule_check rule profile = Ok true ∧
   raises_exception (py_format (rule_description_template rule) kwargs)) →
  Forall (in_fragment profile kwargs) (pre ++ post) →
  (∀ other description,
     other ∈ pre ++ post →
     rule_check other profile = Ok true →
     py_format (rule_description_template other) kwargs = Ok description →
     alert_for other description ∈ output) ∧
  (∀ a, a ∈ output →
     ∃ other description,
       other ∈ pre ++ post ∧
       rule_check other profile = Ok true ∧
       py_format (rule_description_template other) kwargs = Ok description ∧
       a = alert_for other description) ∧
  output
  = generate_risk_alerts_over (pre ++ post) now credit_score monthly_income
      monthly_expenses existing_emis credit_utilization active_loans
      score_trend.
Proof.
  cbv zeta. intros Hfail _.
  set (profile := build_profile _ _ _ _ _ _ _).
  set (kwargs := format_kwargs _ _ _ _ _ _ _).
  assert (rule_alert profile kwargs now rule = None) as Hnone.
  { apply rule_alert_raises.
    destruct Hfail as [H | [Hc H]]; [left | right; split; [done|]];
      by apply raises_exception_raises. }
  assert (generate_risk_alerts_over (pre ++ rule :: post) now credit_score
            monthly_income monthly_expenses existing_emis credit_utilization
            active_loans score_trend
          = generate_risk_alerts_over (pre ++ post) now credit_score
              monthly_income monthly_expenses existing_emis credit_utilization
              active_loans score_trend) as Heq.
  { unfold generate_risk_alerts_over. cbv zeta. fold profile kwargs.
    by rewrite (collect_alerts_skip _ _ _ pre post rule Hnone). }
  split; [|split; [|exact Heq]].
  - intros other description Hin Hc Hd. rewrite Heq.
    apply generate_risk_alerts_over_elem_of. exists other. split; [done|].
    apply rule_alert_Some. eauto.
  - intros a Ha. rewrite Heq in Ha.
    apply generate_risk_alerts_over_elem_of in Ha as (other & Hin & Ha).
    apply rule_alert_Some in Ha as (Hc & description & Hd & ->).
    by exists other, description.
Qed.

Lemma generate_risk_alerts_rule_isolated_witness :
  let output :=
    generate_risk_alerts_over
      (take 2 RISK_RULES ++ rule_missing_key :: drop 2 RISK_RULES)
      "2024-12-15T00:00:00" 550 50000 20000 0 70 1 31 in
  py_format (rule_description_template rule_missing_key)
    (format_kwargs 550 50000 20000 0 70 1 31)
  = Raise (KeyError "missing") ∧
  Alert "score_improvement" "Score Improvement"
    "Your credit score has improved by 31 points in the last 6 months. Keep it up!"
    "low" "Positive trend detected" "2024-12-15T00:00:00" true ∈ output ∧
  output = generate_risk_alerts "2024-12-15T00:00:00" 550 50000 20000 0 70 1 31.
Proof.
  cbv zeta. split; [reflexivity|].
  destruct (generate_risk_alerts_rule_isolated (take 2 RISK_RULES)
              (drop 2 RISK_RULES) rule_missing_key "2024-12-15T00:00:00"
              550 50000 20000 0 70 1 31) as (Hin & _ & Heq).
  - right. split; [reflexivity | exact I].
  - repeat constructor; try discriminate; intros _; by vm_compute.
  - split; [|exact Heq].
    apply (Hin (RiskRule "score_improvement" "Score Improvement"
                  "Positive trend detected" "low"
                  (fun profile =>
                     Ok (py_gt (dict_get profile "score_trend" (VInt 0))
                               (VInt 30)))
                  "Your credit score has improved by {trend} points in the last 6 months. Keep it up!")).
    + unfold RISK_RULES. simpl.
      repeat (first [apply list_elem_of_here | apply list_elem_of_further]).
    + reflexivity.
    + reflexivity.
Defined.

(** The same with a predicate that raises, at the head of the catalog. *)
Example raising_check_is_skipped :
  raises (rule_check rule_raising_check
            (build_profile 550 50000 20000 0 70 1 31)) ∧
  generate_risk_alerts_over (rule_raising_check :: RISK_RULES)
    "2024-12-15T00:00:00" 550 50000 20000 0 70 1 31
  = generate_risk_alerts "2024-12-15T00:00:00" 550 50000 20000 0 70 1 31.
Proof. split; [exact I | by vm_compute]. Qed.

(** * Further properties of the core and of its callers *)

(** ** More on rounding *)

(** Turn the outcome of a comparison into the order it states. *)
Ltac qcompare H :=
  match type of H with
  | Qcompare _ _ = Eq => apply Qeq_alt in H
  | Qcompare _ _ = Lt => apply Qlt_alt in H
  | Qcompare _ _ = Gt => apply Qgt_alt in H
  end.

Lemma py_round_inject_Z (z : Z) : py_round (inject_Z z) = z.
Proof.
  unfold py_round. rewrite Qfloor_Z.
  destruct (Qcompare (inject_Z z - inject_Z z) (1 # 2)) eqn:E; [| done |].
  - apply Qeq_alt in E. lra.
  - apply Qgt_alt in E. lra.
Qed.

Lemma py_round_mono (x y : Q) : x <= y → (py_round x ≤ py_round y)%Z.
Proof.
  intros Hxy. pose proof (Qfloor_resp_le _ _ Hxy) as Hf.
  destruct (Z.eq_dec (Qfloor x) (Qfloor y)) as [Heq | Hne].
  - unfold py_round. rewrite Heq.
    destruct (Qcompare (x - inject_Z (Qfloor y)) (1 # 2)) eqn:Ex,
             (Qcompare (y - inject_Z (Qfloor y)) (1 # 2)) eqn:Ey;
      try (destruct (Z.even (Qfloor y))); try lia; exfalso;
      qcompare Ex; qcompare Ey; lra.
  - destruct (py_round_cases x) as [-> | ->], (py_round_cases y) as [-> | ->];
      lia.
Qed.

Lemma pow10_pos (n : nat) : 0 < inject_Z (10 ^ Z.of_nat n).
Proof.
  change 0 with (inject_Z 0). rewrite <- Zlt_Qlt. lia.
Qed.

Lemma round_ndigits_mono (x y : Q) (n : nat) :
  x <= y → round_ndigits x n <= round_ndigits y n.
Proof.
  intros H. unfold round_ndigits. pose proof (pow10_pos n) as Hp.
  apply Qmult_le_compat_r; [|apply Qlt_le_weak, Qinv_lt_0_compat, Hp].
  apply inject_Z_le, py_round_mono.
  apply Qmult_le_compat_r; [done | by apply Qlt_le_weak].
Qed.

(** A number that already has [n] decimals is left as it is. *)
Lemma round_ndigits_of_decimal (z : Z) (n : nat) :
  round_ndigits (inject_Z z / inject_Z (10 ^ Z.of_nat n)) n
  == inject_Z z / inject_Z (10 ^ Z.of_nat n).
Proof.
  unfold round_ndigits. pose proof (pow10_pos n) as Hp.
  set (p := inject_Z (10 ^ Z.of_nat n)) in *.
  rewrite (py_round_comp (inject_Z z / p * p) (inject_Z z)); [|field; lra].
  by rewrite py_round_inject_Z.
Qed.

Lemma round_ndigits_idem (x : Q) (n : nat) :
  round_ndigits (round_ndigits x n) n == round_ndigits x n.
Proof. unfold round_ndigits at 2 3. apply round_ndigits_of_decimal. Qed.

(** ** More on the loan calculator *)

Lemma inject_Z_pos (n : Z) : (0 < n)%Z → 0 < inject_Z n.
Proof. intros H. change 0 with (inject_Z 0). by rewrite <- Zlt_Qlt. Qed.

(** The annuity payment [c q / (q - 1)], with [c = P i] and [q = (1 + i)^n],
    is one month of interest plus [c / (q - 1)]. *)
Lemma annuity_split (c q : Q) : 1 < q → c * q / (q - 1) == c + c / (q - 1).
Proof. intros Hq. field. lra. Qed.

Lemma bernoulli (i : Q) (k : nat) :
  0 <= i → 1 + inject_Z (Z.of_nat k) * i <= Qpower (1 + i) (Z.of_nat k).
Proof.
  intros Hi. induction k as [|k IH].
  - change (Z.of_nat 0) with 0%Z. rewrite Qpower_0_r.
    change (inject_Z 0) with 0. lra.
  - rewrite Qpower_succ by lra.
    rewrite Nat2Z.inj_succ, <- Z.add_1_l, inject_Z_plus.
    change (inject_Z 1) with 1.
    assert (0 <= inject_Z (Z.of_nat k)) as Hk
      by (change 0 with (inject_Z 0); apply inject_Z_le; lia).
    set (q := Qpower (1 + i) (Z.of_nat k)) in *.
    set (N := inject_Z (Z.of_nat k)) in *.
    nra.
Qed.

Lemma annuity_bounds (P i : Q) (n : Z) :
  0 < P → 0 < i → (0 < n)%Z →
  let a := (P * i * Qpower (1 + i) n) / (Qpower (1 + i) n - 1) in
  P / inject_Z n < a ∧ a <= P / inject_Z n + P * i.
Proof.
  intros HP Hi Hn. cbv zeta.
  pose proof (inject_Z_pos n Hn) as HN.
  pose proof (annuity_total_lower P i n HP Hi Hn) as Hlow.
  assert (1 < Qpower (1 + i) n) as Hq by (apply Qpower_1_lt; [lra | lia]).
  assert (1 + inject_Z n * i <= Qpower (1 + i) n) as Hbern.
  { rewrite <- (Z2Nat.id n) by lia. apply bernoulli. lra. }
  set (q := Qpower (1 + i) n) in *. set (N := inject_Z n) in *.
  set (a := P * i * q / (q - 1)) in *.
  assert (a * (q - 1) == P * i * q) as Ha by (unfold a; field; lra).
  set (pn := P / N).
  assert (pn * N == P) as Hpn by (unfold pn; field; lra).
  assert (0 < pn) as Hpn0 by (unfold pn; apply Qlt_shift_div_l; lra).
  split.
  - apply (Qmult_lt_r _ _ N); [done|]. rewrite Hpn. nra.
  - apply (Qmult_lt_0_le_reg_r _ _ (q - 1)); [lra|]. rewrite Ha.
    rewrite <- Hpn. nra.
Qed.

Lemma calculate_emi_nonneg (principal annual_rate : Q) (tenure_months : Z) :
  0 <= calculate_emi principal annual_rate tenure_months.
Proof.
  destruct (Qlt_le_dec 0 principal) as [HP | HP];
    [destruct (Z_lt_le_dec 0 tenure_months) as [Hn | Hn]|].
  - pose proof (inject_Z_pos _ Hn) as HN.
    destruct (Qlt_le_dec 0 annual_rate) as [Hr | Hr].
    + destruct (calculate_emi_paths principal annual_rate tenure_months)
        as (_ & _ & ->); try done. cbv zeta.
      apply round_ndigits_nonneg.
      assert (0 < annual_rate / 12 / 100) as Hi by (qdiv; lra).
      destruct (annuity_bounds principal _ tenure_months HP Hi Hn) as [Hlo _].
      assert (0 < principal / inject_Z tenure_months)
        by (apply Qlt_shift_div_l; lra).
      lra.
    + destruct (calculate_emi_paths principal annual_rate tenure_months)
        as (_ & -> & _); try done.
      apply Qlt_le_weak, Qlt_shift_div_l; lra.
  - destruct (calculate_emi_paths principal annual_rate tenure_months)
      as (H0 & _). rewrite H0; [lra | by right].
  - destruct (calculate_emi_paths principal annual_rate tenure_months)
      as (H0 & _). rewrite H0; [lra | by left].
Qed.

Lemma round_ndigits_2_upper (x : Q) : round_ndigits x 2 <= x + (1 # 200).
Proof.
  pose proof (round_ndigits_close x 2) as H.
  apply Qabs_Qle_condition in H. destruct H as [_ H].
  change ((1 # 2) / inject_Z (10 ^ Z.of_nat 2)) with ((1 # 2) / 100) in H.
  qdiv. lra.
Qed.

(** X1.  For a principal [0 < P <= 10^9], a rate [1 <= r <= 30] and a
    tenure [6 <= n <= 360], the rates and tenures the loan playground
    accepts, the EMI lies between the interest-free instalment [P / n] and
    that instalment plus one month of interest on the whole principal,
    [P r / 1200], up to the half cent of the rounding. *)
Theorem calculate_emi_bounds (P r : Q) (n : Z) :
  0 < P → P <= 1000000000 → 1 <= r <= 30 → (6 ≤ n ≤ 360)%Z →
  P / inject_Z n - (1 # 200) <= calculate_emi P r n ∧
  calculate_emi P r n <= P / inject_Z n + P * r / 1200 + (1 # 200).
Proof.
  intros HP _ [Hr1 _] [Hn6 _].
  assert (0 < r) as Hr by lra. assert (0 < n)%Z as Hn by lia.
  destruct (calculate_emi_paths P r n) as (_ & _ & ->); try done. cbv zeta.
  assert (0 < r / 12 / 100) as Hi by (qdiv; lra).
  destruct (annuity_bounds P _ n HP Hi Hn) as [Hlo Hhi].
  set (a := P * (r / 12 / 100) * _ / _) in *.
  pose proof (round_ndigits_2_lower a). pose proof (round_ndigits_2_upper a).
  assert (P * (r / 12 / 100) == P * r / 1200) as Heq by field.
  rewrite Heq in Hhi. split; lra.
Qed.

Lemma calculate_emi_bounds_witness :
  100000 / inject_Z 12 - (1 # 200) <= calculate_emi 100000 10 12 ∧
  calculate_emi 100000 10 12 <= 100000 / inject_Z 12 + 100000 * 10 / 1200 + (1 # 200).
Proof.
  apply (calculate_emi_bounds 100000 10 12);
    [lra | by apply Qle_bool_iff | split; lra | lia].
Defined.

(** A quotient falls when a positive divisor grows. *)
Lemma Qdiv_le_divisor (c d1 d2 : Q) :
  0 <= c → 0 < d1 → d1 <= d2 → c / d2 <= c / d1.
Proof.
  intros Hc Hd1 Hd2. apply Qle_shift_div_r; [lra|].
  set (x := c / d1). assert (x * d1 == c) as Hx by (unfold x; field; lra).
  assert (0 <= x) as Hx0 by (unfold x; apply Qle_shift_div_l; lra).
  nra.
Qed.

Lemma annuity_tenure_mono (P i : Q) (n1 n2 : Z) :
  0 < P → 0 < i → (0 < n1 ≤ n2)%Z →
  (P * i * Qpower (1 + i) n2) / (Qpower (1 + i) n2 - 1)
  <= (P * i * Qpower (1 + i) n1) / (Qpower (1 + i) n1 - 1).
Proof.
  intros HP Hi [Hn1 Hn12].
  assert (1 < Qpower (1 + i) n1) as Hq1 by (apply Qpower_1_lt; [lra | lia]).
  assert (Qpower (1 + i) n1 <= Qpower (1 + i) n2) as Hq12
    by (apply Qpower_le_compat_l; [lia | lra]).
  rewrite !annuity_split by lra.
  assert (0 <= P * i) as Hc by nra.
  pose proof (Qdiv_le_divisor (P * i) (Qpower (1 + i) n1 - 1)
                (Qpower (1 + i) n2 - 1) Hc).
  lra.
Qed.

Lemma emi_tenure_le (P r : Q) (n1 n2 : Z) :
  (0 < n1)%Z → (n1 ≤ n2)%Z → calculate_emi P r n2 <= calculate_emi P r n1.
Proof.
  intros Hn1 Hn12. assert (0 < n2)%Z as Hn2 by lia.
  pose proof (inject_Z_pos _ Hn1) as HN1.
  pose proof (inject_Z_le _ _ Hn12) as HN12.
  destruct (Qlt_le_dec 0 P) as [HP | HP].
  - destruct (Qlt_le_dec 0 r) as [Hr | Hr].
    + destruct (calculate_emi_paths P r n1) as (_ & _ & ->); try done.
      destruct (calculate_emi_paths P r n2) as (_ & _ & ->); try done.
      cbv zeta. apply round_ndigits_mono, annuity_tenure_mono; try done.
      qdiv. lra.
    + destruct (calculate_emi_paths P r n1) as (_ & -> & _); try done.
      destruct (calculate_emi_paths P r n2) as (_ & -> & _); try done.
      apply Qdiv_le_divisor; lra.
  - destruct (calculate_emi_paths P r n1) as (H1 & _).
    destruct (calculate_emi_paths P r n2) as (H2 & _).
    rewrite H1, H2; [lra | by left | by left].
Qed.

(** X2.  A longer tenure never raises the EMI.  For a principal of at most
    [10^9], a rate that is zero or less (the interest-free path) or within
    [1, 30], and tenures [0 < n1 <= n2 <= 360], the EMI over [n2] months is
    at most the EMI over [n1] months, and it is not negative. *)
Theorem calculate_emi_tenure_mono (P r : Q) (n1 n2 : Z) :
  P <= 1000000000 → r <= 0 ∨ 1 <= r <= 30 →
  (0 < n1 ≤ n2)%Z → (n2 ≤ 360)%Z →
  0 <= calculate_emi P r n2 ∧ calculate_emi P r n2 <= calculate_emi P r n1.
Proof.
  intros _ _ [Hn1 Hn12] _. split.
  - apply calculate_emi_nonneg.
  - by apply emi_tenure_le.
Qed.

Lemma calculate_emi_tenure_mono_witness :
  0 <= calculate_emi 500000 (17 # 2) 60 ∧
  calculate_emi 500000 (17 # 2) 60 <= calculate_emi 500000 (17 # 2) 36.
Proof.
  apply (calculate_emi_tenure_mono 500000 (17 # 2) 36 60);
    [by apply Qle_bool_iff | right; split; by apply Qle_bool_iff | lia | lia].
Defined.

(** X3.  A larger principal never lowers the EMI.  For principals
    [P1 <= P2 <= 10^9], a rate that is zero or less or within [1, 30], and a
    tenure of at most 360 months (zero and negative tenures included, for
    which the EMI is 0), the EMI for [P1] is not negative and at most the
    EMI for [P2]. *)
Theorem calculate_emi_principal_mono (P1 P2 r : Q) (n : Z) :
  P1 <= P2 → P2 <= 1000000000 → r <= 0 ∨ 1 <= r <= 30 → (n ≤ 360)%Z →
  0 <= calculate_emi P1 r n <= calculate_emi P2 r n.
Proof.
  intros HP12 _ _ _. split; [apply calculate_emi_nonneg|].
  destruct (Z_lt_le_dec 0 n) as [Hn | Hn].
  - pose proof (inject_Z_pos _ Hn) as HN.
    destruct (Qlt_le_dec 0 P1) as [HP1 | HP1].
    + assert (0 < P2) as HP2 by lra.
      destruct (Qlt_le_dec 0 r) as [Hr | Hr].
      * destruct (calculate_emi_paths P1 r n) as (_ & _ & ->); try done.
        destruct (calculate_emi_paths P2 r n) as (_ & _ & ->); try done.
        cbv zeta. apply round_ndigits_mono.
        assert (0 < r / 12 / 100) as Hi by (qdiv; lra).
        assert (1 < Qpower (1 + r / 12 / 100) n) as Hq
          by (apply Qpower_1_lt; [lra | lia]).
        set (i := r / 12 / 100) in *. set (q := Qpower (1 + i) n) in *.
        apply Qmult_le_compat_r;
          [| apply Qlt_le_weak, Qinv_lt_0_compat; lra].
        apply Qmult_le_compat_r; [apply Qmult_le_compat_r; lra | lra].
      * destruct (calculate_emi_paths P1 r n) as (_ & -> & _); try done.
        destruct (calculate_emi_paths P2 r n) as (_ & -> & _); try done.
        apply Qmult_le_compat_r; [done | apply Qlt_le_weak, Qinv_lt_0_compat, HN].
    + destruct (calculate_emi_paths P1 r n) as (H1 & _).
      rewrite H1; [apply calculate_emi_nonneg | by left].
  - destruct (calculate_emi_paths P1 r n) as (H1 & _).
    destruct (calculate_emi_paths P2 r n) as (H2 & _).
    rewrite H1, H2; [lra | by right | by right].
Qed.

Lemma calculate_emi_principal_mono_witness :
  0 <= calculate_emi 100000 10 12 <= calculate_emi 250000 10 12.
Proof.
  apply (calculate_emi_principal_mono 100000 250000 10 12);
    [lra | by apply Qle_bool_iff | right; split; lra | lia].
Defined.

(** ** The EMI-to-income ratio and the recommendation *)

Lemma ratio_sentinel (emi monthly_income : Q) :
  monthly_income <= 0 → calculate_emi_to_income_ratio emi monthly_income = 100.
Proof.
  intros H. unfold calculate_emi_to_income_ratio.
  apply Qleb_le in H. by rewrite H.
Qed.

Lemma ratio_rounded (emi monthly_income : Q) :
  0 < monthly_income →
  calculate_emi_to_income_ratio emi monthly_income
  = round_ndigits (emi / monthly_income * 100) 2.
Proof.
  intros H. unfold calculate_emi_to_income_ratio.
  apply Qleb_gt in H. by rewrite H.
Qed.

Lemma ratio_mono (emi1 emi2 monthly_income : Q) :
  emi1 <= emi2 →
  calculate_emi_to_income_ratio emi1 monthly_income
  <= calculate_emi_to_income_ratio emi2 monthly_income.
Proof.
  intros He. destruct (Qlt_le_dec 0 monthly_income) as [Hm | Hm].
  - rewrite !ratio_rounded by done. apply round_ndigits_mono.
    apply Qmult_le_compat_r; [|lra].
    apply Qmult_le_compat_r; [done | apply Qlt_le_weak, Qinv_lt_0_compat, Hm].
  - rewrite !ratio_sentinel by done. lra.
Qed.

(** X4.  With a positive income, EMIs between zero and the income give a
    ratio between 0 and 100, and the ratio never falls when the EMIs grow. *)
Theorem emi_to_income_ratio_range (emi1 emi2 monthly_income : Q) :
  0 < monthly_income → 0 <= emi1 → emi1 <= emi2 → emi2 <= monthly_income →
  0 <= calculate_emi_to_income_ratio emi1 monthly_income ∧
  calculate_emi_to_income_ratio emi1 monthly_income
  <= calculate_emi_to_income_ratio emi2 monthly_income ∧
  calculate_emi_to_income_ratio emi2 monthly_income <= 100.
Proof.
  intros Hm H1 H12 H2. split; [|split; [by apply ratio_mono|]].
  - rewrite ratio_rounded by done. apply round_ndigits_nonneg.
    assert (0 <= emi1 / monthly_income) by (apply Qle_shift_div_l; lra). lra.
  - rewrite ratio_rounded by done.
    assert (emi2 / monthly_income <= 1) by (apply Qle_shift_div_r; lra).
    apply Qle_trans with (round_ndigits 100 2);
      [apply round_ndigits_mono; lra | by apply Qle_bool_iff].
Qed.

Lemma emi_to_income_ratio_range_witness :
  0 <= calculate_emi_to_income_ratio 12000 85000 ∧
  calculate_emi_to_income_ratio 12000 85000
  <= calculate_emi_to_income_ratio 20791 85000 ∧
  calculate_emi_to_income_ratio 20791 85000 <= 100.
Proof.
  apply (emi_to_income_ratio_range 12000 20791 85000); lra.
Defined.

(** X5.  Whatever the income, the ratio returned has at most 2 decimals:
    rounding it to 2 decimals again, as the loan routes do, changes
    nothing.  An income of zero or less gives the sentinel 100. *)
Theorem emi_to_income_ratio_is_rounded (emi monthly_income : Q) :
  round_ndigits (calculate_emi_to_income_ratio emi monthly_income) 2
  == calculate_emi_to_income_ratio emi monthly_income ∧
  (monthly_income <= 0 →
   calculate_emi_to_income_ratio emi monthly_income == 100).
Proof.
  split.
  - destruct (Qlt_le_dec 0 monthly_income) as [Hm | Hm].
    + rewrite ratio_rounded by done. apply round_ndigits_idem.
    + rewrite ratio_sentinel by done. reflexivity.
  - intros Hm. by rewrite ratio_sentinel.
Qed.

(** X6.  The recommendation is chosen by the ratio alone: the "very high"
    text exactly above 50, the "extending tenure" text exactly on (40, 50],
    the "affordable" text exactly on (30, 40] and the "fits well" text
    exactly up to 30. *)
Theorem get_loan_recommendation_tiers (emi_ratio : Q) :
  (get_loan_recommendation emi_ratio
   = "This EMI is very high relative to your income. Consider a smaller loan amount or longer tenure to reduce monthly payments."
   ↔ 50 < emi_ratio) ∧
  (get_loan_recommendation emi_ratio
   = "Consider extending tenure to reduce EMI. This loan may strain your monthly budget."
   ↔ 40 < emi_ratio ∧ emi_ratio <= 50) ∧
  (get_loan_recommendation emi_ratio
   = "This loan is affordable but leaves less room for savings. Consider a smaller amount if possible."
   ↔ 30 < emi_ratio ∧ emi_ratio <= 40) ∧
  (get_loan_recommendation emi_ratio
   = "This loan fits well within your budget. You have healthy financial headroom."
   ↔ emi_ratio <= 30).
Proof.
  unfold get_loan_recommendation.
  destruct (Qltb 50 emi_ratio) eqn:E50;
    [|destruct (Qltb 40 emi_ratio) eqn:E40;
      [|destruct (Qltb 30 emi_ratio) eqn:E30]];
    repeat match goal with
           | H : Qltb _ _ = true |- _ => apply Qltb_lt in H
           | H : Qltb _ _ = false |- _ => apply Qltb_ge in H
           end;
    repeat split; intros; try discriminate; try lra; try tauto.
Qed.

(** ** More on the composite score *)

Lemma py_max_0_mono (a b : Q) : a <= b → py_max 0 a <= py_max 0 b.
Proof.
  intros H.
  destruct (py_max_cases 0 a) as [[? ->] | [? ->]],
           (py_max_cases 0 b) as [[? ->] | [? ->]]; lra.
Qed.

Lemma py_max_0_nonpos (a : Q) : a <= 0 → py_max 0 a = 0.
Proof.
  intros H. unfold py_max. apply Qltb_ge in H. by rewrite H.
Qed.

(** X7.  The score never falls when the credit score rises, and never rises
    when the EMI ratio, the number of active loans or the number of missed
    payments rises. *)
Theorem calculate_chi_monotone (credit_score credit_score' : Z)
    (ratio ratio' : Q) (active_loans active_loans' : Z)
    (missed_payments missed_payments' : Z) :
  (credit_score ≤ credit_score')%Z →
  ratio' <= ratio →
  (active_loans' ≤ active_loans)%Z →
  (missed_payments' ≤ missed_payments)%Z →
  (calculate_chi credit_score ratio active_loans missed_payments
   ≤ calculate_chi credit_score' ratio' active_loans' missed_payments')%Z.
Proof.
  intros Hs Hr Hl Hm. unfold calculate_chi. apply py_round_mono.
  apply inject_Z_le in Hs, Hl, Hm.
  assert (score_component credit_score <= score_component credit_score')
    by (unfold score_component; qdiv; lra).
  assert (emi_component ratio <= emi_component ratio')
    by (apply py_max_0_mono; qdiv; lra).
  assert (loan_component active_loans <= loan_component active_loans')
    by (apply py_max_0_mono; qdiv; lra).
  assert (payment_component missed_payments
          <= payment_component missed_payments')
    by (apply py_max_0_mono; qdiv; lra).
  lra.
Qed.

Lemma calculate_chi_monotone_witness :
  (calculate_chi 700 45 3 2 ≤ calculate_chi 742 (240 # 17) 2 0)%Z.
Proof.
  apply (calculate_chi_monotone 700 742 45 (240 # 17) 3 2 2 0);
    [lia | by apply Qle_bool_iff | lia | lia].
Defined.

(** X8.  Each penalty saturates: 10 or more active loans count as 10, 5 or
    more missed payments as 5, and an EMI ratio of 100 or more as 100. *)
Theorem calculate_chi_saturates (credit_score : Z) (ratio : Q)
    (active_loans missed_payments : Z) :
  ((10 ≤ active_loans)%Z →
   calculate_chi credit_score ratio active_loans missed_payments
   = calculate_chi credit_score ratio 10 missed_payments) ∧
  ((5 ≤ missed_payments)%Z →
   calculate_chi credit_score ratio active_loans missed_payments
   = calculate_chi credit_score ratio active_loans 5) ∧
  (100 <= ratio →
   calculate_chi credit_score ratio active_loans missed_payments
   = calculate_chi credit_score 100 active_loans missed_payments).
Proof.
  unfold calculate_chi. repeat split; intros H.
  - apply inject_Z_le in H. change (inject_Z 10) with 10 in H.
    unfold loan_component. rewrite !py_max_0_nonpos; [done | | qdiv; lra].
    by apply Qle_bool_iff.
  - apply inject_Z_le in H. change (inject_Z 5) with 5 in H.
    unfold payment_component. rewrite !py_max_0_nonpos; [done | | qdiv; lra].
    by apply Qle_bool_iff.
  - unfold emi_component. rewrite !py_max_0_nonpos; [done | | qdiv; lra].
    by apply Qle_bool_iff.
Qed.

Lemma round_ndigits_1_range (x : Q) (m : Z) :
  0 <= x → x <= inject_Z m →
  0 <= round_ndigits x 1 <= inject_Z m.
Proof.
  intros H0 Hm. split; [by apply round_ndigits_nonneg|].
  apply Qle_trans with (round_ndigits (inject_Z m) 1);
    [by apply round_ndigits_mono|].
  unfold round_ndigits.
  rewrite (py_round_comp _ (inject_Z (m * 10))).
  - rewrite py_round_inject_Z, inject_Z_mult.
    change (inject_Z (10 ^ Z.of_nat 1)) with 10. change (inject_Z 10) with 10.
    qdiv. lra.
  - rewrite inject_Z_mult. reflexivity.
Qed.

(** X9.  For a credit score in [0, 900], a non-negative EMI ratio and
    non-negative counts, the breakdown has exactly the four component keys,
    and every component score lies between 0 and the [max_score] shown next
    to it. *)
Theorem get_chi_breakdown_within_max (credit_score : Z) (ratio : Q)
    (active_loans missed_payments : Z) :
  (0 ≤ credit_score ≤ 900)%Z → 0 <= ratio →
  (0 ≤ active_loans)%Z → (0 ≤ missed_payments)%Z →
  let breakdown :=
    get_chi_breakdown credit_score ratio active_loans missed_payments in
  dom breakdown
  = ({["credit_score"; "emi_ratio"; "active_loans"; "missed_payments"]}
     : gset string) ∧
  ∀ key entry,
    breakdown !! key = Some entry →
    0 <= component_score entry <= inject_Z (max_score entry).
Proof.
  intros [Hs0 Hs] Hr Hl Hm. cbv zeta. split.
  - unfold get_chi_breakdown. cbv zeta. rewrite !dom_insert_L, dom_empty_L.
    set_solver.
  - intros key entry. unfold get_chi_breakdown. cbv zeta.
    apply inject_Z_le in Hs0, Hs.
    change (inject_Z 0) with 0 in Hs0. change (inject_Z 900) with 900 in Hs.
    pose proof (emi_component_range _ Hr).
    pose proof (loan_component_range _ Hl).
    pose proof (payment_component_range _ Hm).
    rewrite !lookup_insert. repeat case_decide; try (rewrite lookup_empty);
      intros [= <-]; simpl; apply round_ndigits_1_range;
      try change (inject_Z 40) with 40; try change (inject_Z 30) with 30;
      try change (inject_Z 15) with 15;
      try tauto; unfold score_component; qdiv; lra.
Qed.

Lemma get_chi_breakdown_within_max_witness :
  dom (get_chi_breakdown 742 (240 # 17) 2 0)
  = ({["credit_score"; "emi_ratio"; "active_loans"; "missed_payments"]}
     : gset string).
Proof.
  refine (proj1 (get_chi_breakdown_within_max 742 (240 # 17) 2 0 _ _ _ _));
    [lia | by apply Qle_bool_iff | lia | lia].
Defined.

(** ** When each rule fires *)

Lemma NoDup_fmap_eq {A B} (f : A → B) (l : list A) (x y : A) :
  NoDup (f <$> l) → x ∈ l → y ∈ l → f x = f y → x = y.
Proof.
  induction l as [|a l IH]; simpl; [by intros _ ?%elem_of_nil|].
  rewrite NoDup_cons. intros [Ha Hnd] Hx Hy Hf.
  apply elem_of_cons in Hx as [-> | Hx]; apply elem_of_cons in Hy as [-> | Hy].
  - done.
  - exfalso. apply Ha. rewrite Hf. by apply list_elem_of_fmap_2.
  - exfalso. apply Ha. rewrite <- Hf. by apply list_elem_of_fmap_2.
  - by apply IH.
Qed.

Section Triggers.

Context (now : string) (credit_score : Z)
        (monthly_income monthly_expenses existing_emis : Q)
        (credit_utilization active_loans score_trend : Z).

Local Abbreviation the_profile :=
  (build_profile credit_score monthly_income monthly_expenses existing_emis
     credit_utilization active_loans score_trend).
Local Abbreviation the_kwargs :=
  (format_kwargs credit_score monthly_income monthly_expenses existing_emis
     credit_utilization active_loans score_trend).
Local Abbreviation the_alerts :=
  (generate_risk_alerts now credit_score monthly_income monthly_expenses
     existing_emis credit_utilization active_loans score_trend).

(** With the catalog as it is, an alert is in the output exactly when the
    predicate of its rule holds. *)
Lemma alert_present_iff (rule : risk_rule) :
  rule ∈ RISK_RULES →
  rule_id rule ∈ alert_id <$> the_alerts
  ↔ rule_check rule the_profile = Ok true.
Proof.
  intros Hin. split.
  - intros H.
    apply generate_risk_alerts_triggered in H as (rule' & Hin' & Hid & Hc).
    by rewrite <- (NoDup_fmap_eq rule_id RISK_RULES rule' rule
                     RISK_RULES_ids_distinct Hin' Hin Hid).
  - intros Hc.
    pose proof (proj1 (Forall_forall _ _)
                  (RISK_RULES_descriptions_render credit_score monthly_income
                     monthly_expenses existing_emis credit_utilization
                     active_loans score_trend) rule Hin) as Hrender.
    simpl in Hrender.
    destruct (py_format (rule_description_template rule) the_kwargs)
      as [description|e] eqn:Hd;
      [|exfalso; apply Hrender; exact I].
    apply list_elem_of_fmap. eexists (Alert _ _ _ _ _ _ _).
    split; [reflexivity|].
    apply generate_risk_alerts_over_elem_of. exists rule. split; [done|].
    apply rule_alert_Some. eauto.
Qed.

Lemma profile_credit_utilization (dflt : value) :
  dict_get the_profile "credit_utilization" dflt = VInt credit_utilization.
Proof. reflexivity. Qed.

Lemma profile_active_loans (dflt : value) :
  dict_get the_profile "active_loans" dflt = VInt active_loans.
Proof. reflexivity. Qed.

Lemma profile_score_trend (dflt : value) :
  dict_get the_profile "score_trend" dflt = VInt score_trend.
Proof. reflexivity. Qed.

Lemma profile_monthly_expenses (dflt : value) :
  dict_get the_profile "monthly_expenses" dflt = VFloat monthly_expenses.
Proof. reflexivity. Qed.

Lemma profile_existing_emis (dflt : value) :
  dict_get the_profile "existing_emis" dflt = VFloat existing_emis.
Proof. reflexivity. Qed.

Lemma profile_disposable_pct (dflt : value) :
  dict_get the_profile "disposable_pct" dflt
  = disposable_pct_of monthly_income monthly_expenses existing_emis.
Proof. reflexivity. Qed.

(** The disposable percentage the rule computes from the profile is the one
    the call computed for the description. *)
Lemma check_disposable_profile :
  ∃ v, _check_disposable the_profile = Ok v ∧
       to_Q v
       == to_Q (disposable_pct_of monthly_income monthly_expenses
                  existing_emis).
Proof.
  unfold _check_disposable, disposable_pct_of. cbv zeta.
  rewrite profile_monthly_income, profile_monthly_expenses,
    profile_existing_emis.
  unfold py_le. simpl to_Q. change (inject_Z 0) with 0.
  destruct (Qleb monthly_income 0) eqn:Hle.
  - apply Qleb_le in Hle. apply Qltb_ge in Hle. rewrite Hle.
    eexists. split; [reflexivity|]. reflexivity.
  - apply Qleb_gt in Hle. pose proof Hle as Hlt. apply Qltb_lt in Hlt.
    rewrite Hlt. unfold py_truediv. simpl to_Q.
    destruct (Qeq_bool monthly_income 0) eqn:E.
    + apply Qeq_bool_iff in E. lra.
    + simpl. eexists. split; [reflexivity|]. simpl.
      change (inject_Z 100) with 100. reflexivity.
Qed.

Lemma emi_ratio_above (c : Q) :
  c < 100 →
  c < to_Q (emi_ratio_of monthly_income existing_emis)
  ↔ monthly_income <= 0
    ∨ (0 < monthly_income ∧ c < existing_emis / monthly_income * 100).
Proof.
  intros Hc. unfold emi_ratio_of. destruct (Qltb 0 monthly_income) eqn:E.
  - apply Qltb_lt in E. simpl. split; [intros; right; by split|].
    intros [? | [_ ?]]; [lra | done].
  - apply Qltb_ge in E. simpl. change (inject_Z 100) with 100.
    split; [by left | done].
Qed.

Lemma emi_ratio_below (c : Q) :
  c <= 100 →
  to_Q (emi_ratio_of monthly_income existing_emis) < c
  ↔ 0 < monthly_income ∧ existing_emis / monthly_income * 100 < c.
Proof.
  intros Hc. unfold emi_ratio_of. destruct (Qltb 0 monthly_income) eqn:E.
  - apply Qltb_lt in E. simpl. tauto.
  - apply Qltb_ge in E. simpl. change (inject_Z 100) with 100.
    split; [lra | intros [? _]; lra].
Qed.

Lemma disposable_pct_below (c : Q) :
  0 < c →
  to_Q (disposable_pct_of monthly_income monthly_expenses existing_emis) < c
  ↔ monthly_income <= 0
    ∨ (0 < monthly_income ∧
       (monthly_income - monthly_expenses - existing_emis) / monthly_income
       * 100 < c).
Proof.
  intros Hc. unfold disposable_pct_of. cbv zeta.
  destruct (Qltb 0 monthly_income) eqn:E.
  - apply Qltb_lt in E. simpl. split; [intros; right; by split|].
    intros [? | [_ ?]]; [lra | done].
  - apply Qltb_ge in E. simpl. change (inject_Z 0) with 0.
    split; [by left | done].
Qed.

Lemma Ok_inj (b c : bool) : @Ok bool b = Ok c ↔ b = c.
Proof. split; [by intros [=] | by intros ->]. Qed.

Lemma Zlt_inject (a b : Z) : inject_Z a < inject_Z b ↔ (a < b)%Z.
Proof. by rewrite <- Zlt_Qlt. Qed.

Lemma Zle_inject (a b : Z) : inject_Z a <= inject_Z b ↔ (a ≤ b)%Z.
Proof. by rewrite <- Zle_Qle. Qed.

(** The k-th rule of the catalog is in the catalog. *)
Ltac in_catalog :=
  unfold RISK_RULES;
  repeat (first [apply list_elem_of_here | apply list_elem_of_further]).

Lemma high_emi_burden_iff :
  "high_emi_burden" ∈ alert_id <$> the_alerts
  ↔ monthly_income <= 0
    ∨ (0 < monthly_income ∧ 40 < existing_emis / monthly_income * 100).
Proof.
  rewrite (alert_present_iff (RiskRule "high_emi_burden" _ _ _ _ _))
    by in_catalog.
  simpl. rewrite profile_emi_ratio, Ok_inj, py_gt_lt. simpl.
  change (inject_Z 40) with 40. apply emi_ratio_above. lra.
Qed.

Lemma very_high_emi_iff :
  "very_high_emi" ∈ alert_id <$> the_alerts
  ↔ monthly_income <= 0
    ∨ (0 < monthly_income ∧ 60 < existing_emis / monthly_income * 100).
Proof.
  rewrite (alert_present_iff (RiskRule "very_high_emi" _ _ _ _ _))
    by in_catalog.
  simpl. rewrite profile_emi_ratio, Ok_inj, py_gt_lt. simpl.
  change (inject_Z 60) with 60. apply emi_ratio_above. lra.
Qed.

Lemma high_credit_utilization_iff :
  "high_credit_utilization" ∈ alert_id <$> the_alerts
  ↔ (60 < credit_utilization)%Z.
Proof.
  rewrite (alert_present_iff (RiskRule "high_credit_utilization" _ _ _ _ _))
    by in_catalog.
  simpl. rewrite profile_credit_utilization, Ok_inj, py_gt_lt. simpl.
  apply Zlt_inject.
Qed.

Lemma very_high_utilization_iff :
  "very_high_utilization" ∈ alert_id <$> the_alerts
  ↔ (80 < credit_utilization)%Z.
Proof.
  rewrite (alert_present_iff (RiskRule "very_high_utilization" _ _ _ _ _))
    by in_catalog.
  simpl. rewrite profile_credit_utilization, Ok_inj, py_gt_lt. simpl.
  apply Zlt_inject.
Qed.

Lemma low_credit_score_iff :
  "low_credit_score" ∈ alert_id <$> the_alerts ↔ (credit_score < 600)%Z.
Proof.
  rewrite (alert_present_iff (RiskRule "low_credit_score" _ _ _ _ _))
    by in_catalog.
  simpl. rewrite profile_credit_score, Ok_inj, py_lt_lt. simpl.
  apply Zlt_inject.
Qed.

Lemma multiple_active_loans_iff :
  "multiple_active_loans" ∈ alert_id <$> the_alerts ↔ (3 < active_loans)%Z.
Proof.
  rewrite (alert_present_iff (RiskRule "multiple_active_loans" _ _ _ _ _))
    by in_catalog.
  simpl. rewrite profile_active_loans, Ok_inj, py_gt_lt. simpl.
  apply Zlt_inject.
Qed.

Lemma low_disposable_income_iff :
  "low_disposable_income" ∈ alert_id <$> the_alerts
  ↔ monthly_income <= 0
    ∨ (0 < monthly_income ∧
       (monthly_income - monthly_expenses - existing_emis) / monthly_income
       * 100 < 20).
Proof.
  rewrite (alert_present_iff (RiskRule "low_disposable_income" _ _ _ _ _))
    by in_catalog.
  simpl. destruct check_disposable_profile as (v & -> & Hv). simpl.
  rewrite Ok_inj, py_lt_lt. simpl. change (inject_Z 20) with 20.
  rewrite Hv. apply disposable_pct_below. lra.
Qed.

Lemma score_improvement_iff :
  "score_improvement" ∈ alert_id <$> the_alerts ↔ (30 < score_trend)%Z.
Proof.
  rewrite (alert_present_iff (RiskRule "score_improvement" _ _ _ _ _))
    by in_catalog.
  simpl. rewrite profile_score_trend, Ok_inj, py_gt_lt. simpl.
  apply Zlt_inject.
Qed.

Lemma healthy_finances_iff :
  "healthy_finances" ∈ alert_id <$> the_alerts
  ↔ (0 < monthly_income ∧ existing_emis / monthly_income * 100 < 30)
    ∧ (750 < credit_score)%Z.
Proof.
  rewrite (alert_present_iff (RiskRule "healthy_finances" _ _ _ _ _))
    by in_catalog.
  simpl. rewrite profile_emi_ratio, profile_credit_score, Ok_inj.
  rewrite andb_true_iff, py_lt_lt, py_gt_lt. simpl.
  change (inject_Z 30) with 30. rewrite Zlt_inject.
  rewrite emi_ratio_below by lra. done.
Qed.

Lemma optimal_utilization_iff :
  "optimal_utilization" ∈ alert_id <$> the_alerts
  ↔ (10 ≤ credit_utilization ≤ 30)%Z.
Proof.
  rewrite (alert_present_iff (RiskRule "optimal_utilization" _ _ _ _ _))
    by in_catalog.
  simpl. rewrite !profile_credit_utilization, Ok_inj.
  rewrite andb_true_iff. unfold py_le. rewrite !Qleb_le. simpl.
  by rewrite !Zle_inject.
Qed.

End Triggers.

(** X10.  The six rules that test an integer field of the profile fire on
    exactly these conditions of the inputs, whatever the income, the
    expenses and the EMIs of the call. *)
Theorem risk_rule_triggers (now : string) (credit_score : Z)
    (monthly_income monthly_expenses existing_emis : Q)
    (credit_utilization active_loans score_trend : Z) :
  let ids := alert_id <$> generate_risk_alerts now credit_score monthly_income
               monthly_expenses existing_emis credit_utilization active_loans
               score_trend in
  ("high_credit_utilization" ∈ ids ↔ (60 < credit_utilization)%Z) ∧
  ("very_high_utilization" ∈ ids ↔ (80 < credit_utilization)%Z) ∧
  ("low_credit_score" ∈ ids ↔ (credit_score < 600)%Z) ∧
  ("multiple_active_loans" ∈ ids ↔ (3 < active_loans)%Z) ∧
  ("score_improvement" ∈ ids ↔ (30 < score_trend)%Z) ∧
  ("optimal_utilization" ∈ ids ↔ (10 ≤ credit_utilization ≤ 30)%Z).
Proof.
  cbv zeta.
  split; [apply high_credit_utilization_iff|].
  split; [apply very_high_utilization_iff|].
  split; [apply low_credit_score_iff|].
  split; [apply multiple_active_loans_iff|].
  split; [apply score_improvement_iff | apply optimal_utilization_iff].
Qed.

(** X11.  The critical alerts come on top of the plain ones: "very_high_emi"
    is never returned without "high_emi_burden", nor
    "very_high_utilization" without "high_credit_utilization". *)
Theorem critical_alerts_escalate (now : string) (credit_score : Z)
    (monthly_income monthly_expenses existing_emis : Q)
    (credit_utilization active_loans score_trend : Z) :
  let ids := alert_id <$> generate_risk_alerts now credit_score monthly_income
               monthly_expenses existing_emis credit_utilization active_loans
               score_trend in
  ("very_high_emi" ∈ ids → "high_emi_burden" ∈ ids) ∧
  ("very_high_utilization" ∈ ids → "high_credit_utilization" ∈ ids).
Proof.
  cbv zeta. split.
  - rewrite very_high_emi_iff, high_emi_burden_iff.
    intros [? | [? ?]]; [by left | right; split; [done | lra]].
  - rewrite very_high_utilization_iff, high_credit_utilization_iff. lia.
Qed.

(** X12.  The praising alerts never come with the warnings they contradict:
    "healthy_finances" with neither "very_high_emi" nor "low_credit_score",
    and "optimal_utilization" with neither of the two utilization
    warnings. *)
Theorem praise_excludes_warnings (now : string) (credit_score : Z)
    (monthly_income monthly_expenses existing_emis : Q)
    (credit_utilization active_loans score_trend : Z) :
  let ids := alert_id <$> generate_risk_alerts now credit_score monthly_income
               monthly_expenses existing_emis credit_utilization active_loans
               score_trend in
  ("healthy_finances" ∈ ids →
   ("very_high_emi" ∉ ids) ∧ ("low_credit_score" ∉ ids)) ∧
  ("optimal_utilization" ∈ ids →
   ("high_credit_utilization" ∉ ids) ∧ ("very_high_utilization" ∉ ids)).
Proof.
  cbv zeta. split.
  - rewrite healthy_finances_iff, very_high_emi_iff, low_credit_score_iff.
    intros [[? ?] ?]. split; [intros [? | [_ ?]]; lra | lia].
  - rewrite optimal_utilization_iff, high_credit_utilization_iff,
      very_high_utilization_iff. lia.
Qed.

(** X13.  Every rule contributes at most one alert: the ids of the output
    are pairwise distinct and there are at most ten of them; each alert is
    active, carries the timestamp of the call, and has the title, severity
    and rule text of the catalog rule of its id. *)
Theorem generate_risk_alerts_wellformed (now : string) (credit_score : Z)
    (monthly_income monthly_expenses existing_emis : Q)
    (credit_utilization active_loans score_trend : Z) :
  let output := generate_risk_alerts now credit_score monthly_income
                  monthly_expenses existing_emis credit_utilization
                  active_loans score_trend in
  NoDup (alert_id <$> output) ∧
  length output ≤ 10 ∧
  ∀ a, a ∈ output →
    alert_is_active a = true ∧ alert_created_at a = now ∧
    ∃ rule, rule ∈ RISK_RULES ∧ rule_id rule = alert_id a ∧
            rule_title rule = alert_title a ∧
            rule_severity rule = alert_severity a ∧
            rule_rule rule = alert_rule a.
Proof.
  cbv zeta. unfold generate_risk_alerts, generate_risk_alerts_over. cbv zeta.
  set (profile := build_profile _ _ _ _ _ _ _).
  set (kwargs := format_kwargs _ _ _ _ _ _ _).
  pose proof (collect_alerts_ids profile kwargs now RISK_RULES) as Hsub.
  split; [|split].
  - rewrite sort_by_key_perm.
    eapply sublist_NoDup; [apply RISK_RULES_ids_distinct | exact Hsub].
  - rewrite sort_by_key_perm.
    apply sublist_length in Hsub. rewrite !length_fmap in Hsub.
    exact Hsub.
  - intros a Ha. rewrite sort_by_key_perm in Ha.
    apply collect_alerts_elem_of in Ha as (rule & Hin & Hrule).
    apply rule_alert_Some in Hrule as (_ & d & _ & ->). simpl.
    repeat split. by exists rule.
Qed.

(** X14.  [_check_disposable] returns 0 on an empty profile, and on the
    profile of a call, whose income, expenses and EMIs are floats, it
    returns the disposable percentage that the call stores for the
    description. *)
Theorem check_disposable_consistent :
  _check_disposable ∅ = Ok (VInt 0) ∧
  ∀ (credit_score : Z) (monthly_income monthly_expenses existing_emis : Q)
    (credit_utilization active_loans score_trend : Z),
    ∃ v,
      _check_disposable
        (build_profile credit_score monthly_income monthly_expenses
           existing_emis credit_utilization active_loans score_trend)
      = Ok v ∧
      to_Q v
      == to_Q (disposable_pct_of monthly_income monthly_expenses
                 existing_emis).
Proof.
  split; [reflexivity|].
  intros. apply check_disposable_profile.
Qed.

(** ** Counting alerts *)

Lemma count_alert_step (high medium low : Z) (alert : gmap string field) :
  count_alert (counts_dict high medium low) alert
  = counts_dict
      (high + count_severity "high" [alert])
      (medium + count_severity "medium" [alert])
      (low + count_severity "low" [alert]).
Proof.
  unfold count_alert, count_severity, counted_severity.
  rewrite !filter_cons, !filter_nil.
  destruct (dict_get alert "severity" (FStr "low")) as [s|b].
  - destruct (decide (s = "high")) as [-> | Hh];
      [|destruct (decide (s = "medium")) as [-> | Hm];
        [|destruct (decide (s = "low")) as [-> | Hl]]].
    + simpl. rewrite !Z.add_0_r. reflexivity.
    + simpl. rewrite !Z.add_0_r. reflexivity.
    + simpl. rewrite !Z.add_0_r. reflexivity.
    + rewrite !decide_False by congruence. simpl. rewrite !Z.add_0_r.
      unfold counts_dict. by rewrite !lookup_insert_ne, lookup_empty.
  - rewrite !decide_False by congruence. simpl. by rewrite !Z.add_0_r.
Qed.

Lemma count_severity_cons (s : string) (alert : gmap string field)
    (alerts : list (gmap string field)) :
  count_severity s (alert :: alerts)
  = (count_severity s [alert] + count_severity s alerts)%Z.
Proof.
  unfold count_severity. rewrite !filter_cons, filter_nil.
  case_decide; simpl; lia.
Qed.

Lemma fold_count_alert (alerts : list (gmap string field))
    (high medium low : Z) :
  fold_left count_alert alerts (counts_dict high medium low)
  = counts_dict (high + count_severity "high" alerts)
      (medium + count_severity "medium" alerts)
      (low + count_severity "low" alerts).
Proof.
  revert high medium low.
  induction alerts as [|alert alerts IH]; intros high medium low;
    cbn [fold_left].
  - unfold count_severity. simpl. by rewrite !Z.add_0_r.
  - rewrite count_alert_step, IH.
    rewrite (count_severity_cons "high" alert alerts),
      (count_severity_cons "medium" alert alerts),
      (count_severity_cons "low" alert alerts).
    f_equal; lia.
Qed.

Lemma get_alert_counts_counts (alerts : list (gmap string field)) :
  get_alert_counts alerts
  = counts_dict (count_severity "high" alerts)
      (count_severity "medium" alerts) (count_severity "low" alerts).
Proof. apply (fold_count_alert alerts 0 0 0). Qed.

(** X15.  [get_alert_counts] returns a dictionary with exactly the keys
    high, medium and low, each holding the number of alerts of that severity.
    An alert without a severity is counted as low; an alert of any other
    severity is not counted at all. *)
Theorem get_alert_counts_spec (alerts : list (gmap string field)) :
  get_alert_counts alerts
  = counts_dict (count_severity "high" alerts)
      (count_severity "medium" alerts) (count_severity "low" alerts) ∧
  dom (get_alert_counts alerts) = ({["high"; "medium"; "low"]} : gset string) ∧
  (∀ alert, alert !! "severity" = None →
     get_alert_counts (alert :: alerts) !! "low"
     = Some (1 + count_severity "low" alerts)%Z) ∧
  (∀ alert s, alert !! "severity" = Some (FStr s) →
     s ∉ ["high"; "medium"; "low"] →
     get_alert_counts (alert :: alerts) = get_alert_counts alerts).
Proof.
  split; [apply get_alert_counts_counts|]. split; [|split].
  - rewrite get_alert_counts_counts. unfold counts_dict.
    rewrite !dom_insert_L, dom_empty_L. set_solver.
  - intros alert Hnone. rewrite get_alert_counts_counts.
    assert (∀ h m l, counts_dict h m l !! "low" = Some l) as -> by done.
    f_equal. rewrite (count_severity_cons "low" alert alerts). f_equal.
    unfold count_severity, counted_severity, dict_get.
    by rewrite filter_cons, Hnone.
  - intros alert s Hs Hother. rewrite !get_alert_counts_counts.
    assert (∀ t, t ∈ ["high"; "medium"; "low"] →
                 count_severity t [alert] = 0%Z) as Hzero.
    { intros t Ht. unfold count_severity, counted_severity, dict_get.
      rewrite filter_cons, Hs. simpl.
      rewrite decide_False; [done | by intros [= ->]]. }
    rewrite (count_severity_cons "high" alert alerts),
      (count_severity_cons "medium" alert alerts),
      (count_severity_cons "low" alert alerts).
    rewrite !Hzero by set_solver. done.
Qed.

Lemma counted_severity_alert_dict (a : alert) :
  counted_severity (alert_dict a) = FStr (alert_severity a).
Proof. reflexivity. Qed.

Lemma count_severity_alert_dict (s : string) (l : list alert) :
  count_severity s (alert_dict <$> l)
  = Z.of_nat (length (filter (λ a, alert_severity a = s) l)).
Proof.
  unfold count_severity. f_equal.
  induction l as [|a l IH]; [done|].
  rewrite fmap_cons, !filter_cons, counted_severity_alert_dict.
  destruct (decide (alert_severity a = s)) as [-> | Hne].
  - rewrite decide_True by done. simpl. by rewrite IH.
  - rewrite decide_False by congruence. done.
Qed.

Lemma known_severities_partition (l : list alert) :
  Forall (λ a, alert_severity a ∈ ["high"; "medium"; "low"]) l →
  (length (filter (λ a, alert_severity a = "high") l)
   + length (filter (λ a, alert_severity a = "medium") l)
   + length (filter (λ a, alert_severity a = "low") l)
   = length l)%nat.
Proof.
  induction 1 as [|a l Ha _ IH]; [done|].
  rewrite !filter_cons.
  repeat (apply elem_of_cons in Ha as [-> | Ha]);
    [| | | by apply elem_of_nil in Ha]; simpl; lia.
Qed.

Lemma generate_risk_alerts_known_severities (now : string) (credit_score : Z)
    (monthly_income monthly_expenses existing_emis : Q)
    (credit_utilization active_loans score_trend : Z) :
  Forall (λ a, alert_severity a ∈ ["high"; "medium"; "low"])
    (generate_risk_alerts now credit_score monthly_income monthly_expenses
       existing_emis credit_utilization active_loans score_trend).
Proof.
  unfold generate_risk_alerts, generate_risk_alerts_over. cbv zeta.
  rewrite sort_by_key_perm.
  eapply Forall_impl; [apply collect_alerts_from_rules|]. simpl.
  intros a (rule & Hin & _ & <- & _).
  by apply (proj1 (Forall_forall _ _) RISK_RULES_severities).
Qed.

(** X16.  Counting the alerts that [generate_risk_alerts] returns counts
    each of them once: the three counts are the numbers of alerts of each
    severity and add up to the length of the list. *)
Theorem get_alert_counts_of_generated (now : string) (credit_score : Z)
    (monthly_income monthly_expenses existing_emis : Q)
    (credit_utilization active_loans score_trend : Z) :
  let output := generate_risk_alerts now credit_score monthly_income
                  monthly_expenses existing_emis credit_utilization
                  active_loans score_trend in
  let number s :=
    Z.of_nat (length (filter (λ a, alert_severity a = s) output)) in
  get_alert_counts (alert_dict <$> output)
  = counts_dict (number "high") (number "medium") (number "low") ∧
  (number "high" + number "medium" + number "low")%Z
  = Z.of_nat (length output).
Proof.
  cbv zeta. split.
  - rewrite get_alert_counts_counts. by rewrite !count_severity_alert_dict.
  - pose proof (known_severities_partition _
                  (generate_risk_alerts_known_severities now credit_score
                     monthly_income monthly_expenses existing_emis
                     credit_utilization active_loans score_trend)).
    lia.
Qed.

(** ** More on the simulator *)

(** X17.  Looking an action of the catalog up by its id returns that action,
    and whatever a lookup returns is the catalog action of that id. *)
Theorem get_simulation_action_round_trip :
  (∀ action, action ∈ SIMULATION_ACTIONS →
     get_simulation_action (action_id action) = Some action) ∧
  (∀ id action, get_simulation_action id = Some action →
     action ∈ SIMULATION_ACTIONS ∧ action_id action = id).
Proof.
  split.
  - intros action Hin. unfold SIMULATION_ACTIONS in Hin.
    repeat (apply elem_of_cons in Hin as [-> | Hin]);
      [reflexivity.. | by apply elem_of_nil in Hin].
  - intros id action. apply find_action_Some.
Qed.

(** X18.  For a current score within [300, 900], an action that the catalog
    marks "up" never lowers the projected score and one marked "down" never
    raises it; the direction is the sign of the impact, the projected score
    moves by at most the impact, and the current score is returned as it
    was given. *)
Theorem simulate_action_direction (id : string) (score : Z)
    (result : simulation_result) :
  (300 ≤ score ≤ 900)%Z →
  simulate_action id score = Some result →
  current_score result = score ∧
  (direction result = "up" ∨ direction result = "down") ∧
  (direction result = "up" ↔ (0 < impact result)%Z) ∧
  (direction result = "up" → (score ≤ projected_score result)%Z) ∧
  (direction result = "down" → (projected_score result ≤ score)%Z) ∧
  (Z.abs (projected_score result - score) ≤ Z.abs (impact result))%Z.
Proof.
  intros Hscore. unfold simulate_action, get_simulation_action.
  destruct (find_action SIMULATION_ACTIONS id) as [action|] eqn:Hfind;
    [|done].
  apply find_action_Some in Hfind as [Hin _]. intros [= <-]. simpl.
  rewrite clamp_score. unfold SIMULATION_ACTIONS in Hin.
  repeat (apply elem_of_cons in Hin as [-> | Hin]);
    [| | | | | | by apply elem_of_nil in Hin]; simpl;
    repeat split; intros; try discriminate; try lia; auto.
Qed.

Lemma simulate_action_direction_witness :
  ∃ result,
    simulate_action "close_loan" 700 = Some result ∧
    direction result = "up" ∧ (700 ≤ projected_score result)%Z.
Proof.
  eexists. split; [reflexivity|].
  assert (300 ≤ 700 ≤ 900)%Z as Hscore by lia.
  destruct (simulate_action_direction "close_loan" 700 _ Hscore eq_refl)
    as (_ & _ & _ & Hup & _).
  split; [reflexivity | by apply Hup].
Defined.

(** ** The routes *)

Import Routes.

Lemma Qfloor_unique (x : Q) (z : Z) :
  inject_Z z <= x → x < inject_Z (z + 1) → Qfloor x = z.
Proof.
  intros Hlo Hhi.
  pose proof (Qfloor_le x) as Hf1. pose proof (Qlt_floor x) as Hf2.
  assert (inject_Z z < inject_Z (Qfloor x + 1)) as H1 by lra.
  assert (inject_Z (Qfloor x) < inject_Z (z + 1)) as H2 by lra.
  rewrite <- Zlt_Qlt in H1, H2. lia.
Qed.

(** Rounding commutes with adding an even whole number (an odd one flips
    the parity that decides a tie). *)
Lemma py_round_shift_even (x : Q) (k : Z) :
  Z.even k = true → py_round (x + inject_Z k) = (py_round x + k)%Z.
Proof.
  intros Hk.
  pose proof (Qfloor_le x) as Hf1. pose proof (Qlt_floor x) as Hf2.
  rewrite inject_Z_plus in Hf2.
  assert (Qfloor (x + inject_Z k) = (Qfloor x + k)%Z) as Hfloor.
  { apply Qfloor_unique; rewrite !inject_Z_plus; lra. }
  unfold py_round. rewrite Hfloor, inject_Z_plus, Z.even_add, Hk.
  assert (x + inject_Z k - (inject_Z (Qfloor x) + inject_Z k)
          == x - inject_Z (Qfloor x)) as Heq by ring.
  rewrite (Qcompare_comp _ _ Heq _ _ (Qeq_refl (1 # 2))).
  destruct (Qcompare (x - inject_Z (Qfloor x)) (1 # 2)); [|lia..].
  destruct (Z.even (Qfloor x)); simpl; lia.
Qed.

(** What the EMI of a loan returns over its tenure exceeds the principal by
    at least one month of interest, less half a cent a month of rounding. *)
Lemma emi_interest_lower (P r : Q) (n : Z) :
  0 < P → 0 < r → (0 < n)%Z →
  P * r * (1 # 1200) - inject_Z n * (1 # 200)
  <= calculate_emi P r n * inject_Z n - P.
Proof.
  intros HP Hr Hn. pose proof (inject_Z_pos n Hn) as HN.
  destruct (calculate_emi_paths P r n) as (_ & _ & ->); try done. cbv zeta.
  assert (r / 12 / 100 == r * (1 # 1200)) as Hi by field.
  assert (0 < r / 12 / 100) as Hipos by lra.
  pose proof (annuity_total_lower P _ n HP Hipos Hn) as Htot.
  set (i := r / 12 / 100) in *.
  set (a := P * i * Qpower (1 + i) n / (Qpower (1 + i) n - 1)) in *.
  pose proof (round_ndigits_2_lower a) as Hround.
  assert ((a - (1 # 200)) * inject_Z n <= round_ndigits a 2 * inject_Z n)
    as Hmul by (apply Qmult_le_compat_r; lra).
  assert (P * i == P * r * (1 # 1200)) as HPi by (rewrite Hi; ring).
  lra.
Qed.

Lemma valid_request_interest (P r : Q) (n : Z) :
  10000 <= P → 1 <= r → (6 ≤ n ≤ 360)%Z →
  6 < calculate_emi P r n * inject_Z n - P.
Proof.
  intros HP Hr [Hn6 Hn360].
  pose proof (emi_interest_lower P r n) as H.
  apply inject_Z_le in Hn360. change (inject_Z 360) with 360 in Hn360.
  assert (10000 <= P * r) by nra.
  assert (P * r * (1 # 1200) - inject_Z n * (1 # 200)
          <= calculate_emi P r n * inject_Z n - P) by (apply H; [lra | lra | lia]).
  lra.
Qed.


(** Read the fields of a response without unfolding the arithmetic. *)
Ltac response_fields :=
  cbn [resp_emi resp_total_interest resp_total_payment resp_new_total_emi
       resp_new_emi_ratio resp_current_chi resp_new_chi resp_chi_change
       resp_risk_level resp_recommendation].

(** X19.  [run_simulation] answers 404 exactly for the action ids that are
    not in the catalog, whatever score is requested or stored; for an id of
    the catalog it responds, with a projected score within [300, 900]. *)
Theorem run_simulation_not_found (id : string) (requested : option Z)
    (db : stored) :
  (id ∉ map action_id SIMULATION_ACTIONS →
   run_simulation id requested db
   = HTTPException 404 ("Simulation action '" +:+ id +:+ "' not found")) ∧
  (id ∈ map action_id SIMULATION_ACTIONS →
   ∃ result,
     run_simulation id requested db = Respond result ∧
     (300 ≤ projected_score result ≤ 900)%Z).
Proof.
  unfold run_simulation. cbv zeta.
  set (score := unless_requested requested _ _).
  unfold simulate_action, get_simulation_action.
  pose proof (find_action_None SIMULATION_ACTIONS id) as Hnone.
  destruct (find_action SIMULATION_ACTIONS id) as [action|] eqn:Hfind.
  - split; [intros H; by apply Hnone in H|].
    intros _. eexists. split; [reflexivity|]. simpl.
    rewrite clamp_score. lia.
  - split; [done | intros H; exfalso; by apply Hnone].
Qed.

(** X20.  The score a simulation starts from: a requested score other than
    zero is used as it is and the store is not consulted; a requested score
    of zero is falsy and is replaced by the default 742; without a requested
    score it is the stored one, or 742 when none is stored. *)
Theorem run_simulation_score_used (id : string) (requested : option Z)
    (db : stored) (result : simulation_result) :
  run_simulation id requested db = Respond result →
  current_score result
  = match requested with
    | Some 0%Z => 742%Z
    | Some score => score
    | None => default 742%Z (stored_score db)
    end.
Proof.
  unfold run_simulation. cbv zeta.
  set (score := unless_requested requested _ _).
  assert (score = match requested with
                  | Some 0%Z => 742%Z
                  | Some s => s
                  | None => default 742%Z (stored_score db)
                  end) as Hscore.
  { unfold score, unless_requested, or_default_int.
    destruct requested as [[| |]|]; try reflexivity. }
  rewrite <- Hscore. unfold simulate_action.
  destruct (get_simulation_action id); [|done]. by intros [= <-].
Qed.

Lemma run_simulation_score_used_witness :
  ∃ result,
    run_simulation "close_loan" (Some 0%Z) (Stored None None None None (Some 650%Z))
    = Respond result ∧
    current_score result = 742%Z.
Proof.
  eexists. split; [reflexivity|].
  exact (run_simulation_score_used "close_loan" (Some 0%Z)
           (Stored None None None None (Some 650%Z)) _ eq_refl).
Defined.

(** X21.  Taking the loan never improves the score the playground reports:
    [chi_change] is at most zero for every request and every stored
    profile. *)
Theorem calculate_loan_never_improves (request : LoanCalculateRequest)
    (db : stored) :
  let response := calculate_loan request db in
  (resp_new_chi response ≤ resp_current_chi response)%Z ∧
  (resp_chi_change response ≤ 0)%Z ∧
  resp_chi_change response
  = (resp_new_chi response - resp_current_chi response)%Z.
Proof.
  cbv zeta. unfold calculate_loan. cbv zeta. response_fields.
  set (income := unless_requested (req_monthly_income request) _ _).
  set (emis := unless_requested (req_existing_emis request) _ _).
  set (loans := unless_requested (req_active_loans request) _ _).
  set (score := unless_requested (req_credit_score request) _ _).
  set (emi := calculate_emi _ _ _).
  assert (calculate_chi score
            (calculate_emi_to_income_ratio (emis + emi) income) (loans + 1) 0
          ≤ calculate_chi score
              (calculate_emi_to_income_ratio emis income) loans 0)%Z as Hle.
  { unfold calculate_chi. apply py_round_mono.
    pose proof (calculate_emi_nonneg (req_loan_amount request)
                  (req_interest_rate request) (req_tenure_months request))
      as Hemi. fold emi in Hemi.
    pose proof (ratio_mono emis (emis + emi) income) as Hratio.
    assert (emi_component (calculate_emi_to_income_ratio (emis + emi) income)
            <= emi_component (calculate_emi_to_income_ratio emis income))
      by (apply py_max_0_mono; qdiv;
          assert (calculate_emi_to_income_ratio emis income
                  <= calculate_emi_to_income_ratio (emis + emi) income)
            by (apply Hratio; lra); lra).
    assert (loan_component (loans + 1) <= loan_component loans)
      by (apply py_max_0_mono; rewrite inject_Z_plus;
          change (inject_Z 1) with 1; qdiv; lra).
    lra. }
  repeat split; lia.
Qed.

(** X22.  For a request within the bounds of the schema (amount at least
    10000, rate in [1, 30], tenure in [6, 360] months) and an amount of at
    most [10^9], the EMI is positive and a whole number of cents, the total
    interest is positive, and the total payment exceeds the amount and is
    within a cent of the EMI times the tenure. *)
Theorem calculate_loan_valid_request (request : LoanCalculateRequest)
    (db : stored) :
  valid_loan_request request →
  req_loan_amount request <= 1000000000 →
  let response := calculate_loan request db in
  0 < resp_emi response ∧
  (∃ cents : Z, resp_emi response = inject_Z cents / 100) ∧
  0 < resp_total_interest response ∧
  req_loan_amount request < resp_total_payment response ∧
  Qabs (resp_total_payment response
        - resp_emi response * inject_Z (req_tenure_months request))
  <= 1 # 100.
Proof.
  intros (HP & [Hr1 Hr30] & Hn) _. cbv zeta. unfold calculate_loan. cbv zeta.
  response_fields.
  set (P := req_loan_amount request) in *.
  set (r := req_interest_rate request) in *.
  set (n := req_tenure_months request) in *.
  assert (0 < n)%Z as Hn0 by lia.
  pose proof (inject_Z_pos n Hn0) as HN.
  pose proof (valid_request_interest P r n HP Hr1 Hn) as Hint.
  unfold calculate_total_interest. cbv zeta.
  set (emi := calculate_emi P r n) in *.
  pose proof (round_ndigits_2_lower (emi * inject_Z n - P)) as Hlo.
  pose proof (round_ndigits_2_upper (emi * inject_Z n - P)) as Hhi.
  split; [|split; [|split; [|split]]].
  - assert (0 < emi * inject_Z n) as Hpos by lra.
    destruct (Qlt_le_dec 0 emi) as [|Hneg]; [done|].
    exfalso. assert (emi * inject_Z n <= 0 * inject_Z n)
      by (apply Qmult_le_compat_r; lra). lra.
  - apply calculate_emi_annuity_rounded; [lra | lia | lra].
  - lra.
  - lra.
  - apply Qabs_Qle_condition. split; lra.
Qed.

Lemma calculate_loan_valid_request_witness :
  let request :=
    {| req_loan_amount := 500000; req_interest_rate := 17 # 2;
       req_tenure_months := 60; req_monthly_income := None;
       req_monthly_expenses := None; req_existing_emis := None;
       req_credit_score := None; req_active_loans := None |} in
  0 < resp_total_interest
        (calculate_loan request (Stored None None None None None)).
Proof.
  cbv zeta.
  refine (proj1 (proj2 (proj2 (calculate_loan_valid_request _ _ _ _)))).
  - unfold valid_loan_request.
    cbn [req_loan_amount req_interest_rate req_tenure_months].
    repeat split; try lia; by apply Qle_bool_iff.
  - cbn [req_loan_amount]. by apply Qle_bool_iff.
Defined.

(** X23.  A zero in an optional field of the request is falsy: the
    playground computes with the default of that field (85000, 35000, 12000,
    742, 2) instead, and the stored profile is not consulted for it. *)
Theorem calculate_loan_zero_is_default (amount rate : Q) (tenure : Z)
    (income expenses emis : option Q) (score loans : option Z) (db : stored) :
  let request income expenses emis score loans :=
    {| req_loan_amount := amount; req_interest_rate := rate;
       req_tenure_months := tenure; req_monthly_income := income;
       req_monthly_expenses := expenses; req_existing_emis := emis;
       req_credit_score := score; req_active_loans := loans |} in
  calculate_loan (request (Some 0) expenses emis score loans) db
  = calculate_loan (request (Some 85000) expenses emis score loans) db ∧
  calculate_loan (request income (Some 0) emis score loans) db
  = calculate_loan (request income (Some 35000) emis score loans) db ∧
  calculate_loan (request income expenses (Some 0) score loans) db
  = calculate_loan (request income expenses (Some 12000) score loans) db ∧
  calculate_loan (request income expenses emis (Some 0%Z) loans) db
  = calculate_loan (request income expenses emis (Some 742%Z) loans) db ∧
  calculate_loan (request income expenses emis score (Some 0%Z)) db
  = calculate_loan (request income expenses emis score (Some 2%Z)) db ∧
  resp_new_total_emi
    (calculate_loan (request income expenses (Some 0) score loans) db)
  == 12000 + calculate_emi amount rate tenure.
Proof.
  cbv zeta. repeat split; reflexivity.
Qed.

(** X24.  When the income the playground ends up with is zero or less, as
    for a stored income of 0 that the request does not override, the new
    EMI ratio is the sentinel 100 and the recommendation is the "very high"
    one, whatever the loan. *)
Theorem calculate_loan_no_income (request : LoanCalculateRequest)
    (db : stored) (income : Q) :
  req_monthly_income request = None →
  stored_monthly_income db = Some income →
  income <= 0 →
  let response := calculate_loan request db in
  resp_new_emi_ratio response == 100 ∧
  resp_recommendation response
  = "This EMI is very high relative to your income. Consider a smaller loan amount or longer tenure to reduce monthly payments.".
Proof.
  intros Hreq Hdb Hinc. cbv zeta. unfold calculate_loan. cbv zeta.
  response_fields. rewrite Hreq, Hdb. cbn [unless_requested default from_option id].
  rewrite !(ratio_sentinel _ income Hinc). split; reflexivity.
Qed.

Lemma calculate_loan_no_income_witness :
  let request :=
    {| req_loan_amount := 500000; req_interest_rate := 17 # 2;
       req_tenure_months := 60; req_monthly_income := None;
       req_monthly_expenses := None; req_existing_emis := None;
       req_credit_score := None; req_active_loans := None |} in
  resp_new_emi_ratio
    (calculate_loan request (Stored (Some 0) None None None None))
  == 100.
Proof.
  cbv zeta.
  refine (proj1 (calculate_loan_no_income
                   {| req_loan_amount := 500000; req_interest_rate := 17 # 2;
                      req_tenure_months := 60; req_monthly_income := None;
                      req_monthly_expenses := None; req_existing_emis := None;
                      req_credit_score := None; req_active_loans := None |}
                   (Stored (Some 0) None None None None) 0 eq_refl eq_refl _)).
  by apply Qle_bool_iff.
Defined.

Lemma compare_loan_options_items (amount rate : Q)
    (monthly_income existing_emis : option Q) (db : stored) :
  ∃ income emis,
    compare_loan_options amount rate monthly_income existing_emis db
    = comparison_item amount rate income emis
      <$> [12; 24; 36; 48; 60; 72; 84]%Z.
Proof. eexists _, _. reflexivity. Qed.

(** X25.  For an amount of at most [10^9] and a rate that is zero or less
    or within [1, 30] (the route itself puts no bounds on its query
    parameters), [compare_loan_options] returns one option for each of the
    tenures 12, 24, 36, 48, 60, 72 and 84, in that order, and down the list
    neither the EMI nor the EMI ratio ever rises. *)
Theorem compare_loan_options_sorted (amount rate : Q)
    (monthly_income existing_emis : option Q) (db : stored) :
  amount <= 1000000000 → rate <= 0 ∨ 1 <= rate <= 30 →
  let options :=
    compare_loan_options amount rate monthly_income existing_emis db in
  item_tenure_months <$> options = [12; 24; 36; 48; 60; 72; 84]%Z ∧
  StronglySorted (λ a b, item_emi b <= item_emi a) options ∧
  StronglySorted (λ a b, item_emi_ratio b <= item_emi_ratio a) options.
Proof.
  intros _ _. cbv zeta.
  destruct (compare_loan_options_items amount rate monthly_income
              existing_emis db) as (income & emis & ->).
  split; [reflexivity|].
  assert (∀ n1 n2 : Z, (0 < n1)%Z → (n1 ≤ n2)%Z →
            item_emi (comparison_item amount rate income emis n2)
            <= item_emi (comparison_item amount rate income emis n1)) as Hemi.
  { intros n1 n2 H1 H2. cbn [item_emi comparison_item].
    by apply emi_tenure_le. }
  assert (∀ n1 n2 : Z, (0 < n1)%Z → (n1 ≤ n2)%Z →
            item_emi_ratio (comparison_item amount rate income emis n2)
            <= item_emi_ratio (comparison_item amount rate income emis n1))
    as Hratio.
  { intros n1 n2 H1 H2. cbn [item_emi_ratio comparison_item].
    apply round_ndigits_mono, ratio_mono.
    pose proof (emi_tenure_le amount rate n1 n2 H1 H2). lra. }
  split; cbn [fmap list_fmap];
    repeat (apply SSorted_cons;
            [| repeat (constructor;
                       [first [apply Hemi | apply Hratio]; lia|]);
               constructor]);
    apply SSorted_nil.
Qed.

Lemma compare_loan_options_sorted_witness :
  let options :=
    compare_loan_options 500000 (17 # 2) None None
      (Stored None None None None None) in
  item_tenure_months <$> options = [12; 24; 36; 48; 60; 72; 84]%Z ∧
  StronglySorted (λ a b, item_emi b <= item_emi a) options ∧
  StronglySorted (λ a b, item_emi_ratio b <= item_emi_ratio a) options.
Proof.
  apply (compare_loan_options_sorted 500000 (17 # 2) None None
           (Stored None None None None None));
    [by apply Qle_bool_iff | right; split; by apply Qle_bool_iff].
Defined.

Lemma chi_in_range (credit_score : Z) (ratio : Q)
    (active_loans missed_payments : Z) :
  (300 ≤ credit_score ≤ 900)%Z → 0 <= ratio →
  (0 ≤ active_loans)%Z → (0 ≤ missed_payments)%Z →
  (13 ≤ calculate_chi credit_score ratio active_loans missed_payments ≤ 100)%Z.
Proof.
  intros Hs Hr Hl Hm.
  pose proof (score_component_range _ Hs).
  pose proof (emi_component_range _ Hr).
  pose proof (loan_component_range _ Hl).
  pose proof (payment_component_range _ Hm).
  unfold calculate_chi. split.
  - apply py_round_ge_int. change (inject_Z 13) with 13. lra.
  - apply py_round_le_int. change (inject_Z 100) with 100. lra.
Qed.

(** X26.  Whatever the store holds within the bounds of its schemas (a
    score in [300, 900], income, EMIs and loan count not negative), and
    also when it holds nothing, [get_current_chi] returns a score between
    13 and 100 and the risk level of that score; EMIs above the income,
    a ratio over 100, are no exception. *)
Theorem get_current_chi_valid (db : stored) :
  (∀ score, stored_score db = Some score → (300 ≤ score ≤ 900)%Z) →
  (∀ income, stored_monthly_income db = Some income → 0 <= income) →
  (∀ emis, stored_existing_emis db = Some emis → 0 <= emis) →
  (∀ loans, stored_active_loans db = Some loans → (0 ≤ loans)%Z) →
  let response := get_current_chi db in
  (13 ≤ chi_score response ≤ 100)%Z ∧
  chi_risk_level response = get_risk_level (chi_score response) ∧
  chi_risk_level response ∈ ["low"; "medium"; "high"].
Proof.
  intros Hscore Hincome Hemis Hloans. cbv zeta. unfold get_current_chi.
  cbv zeta. cbn [chi_score chi_risk_level].
  split; [|split; [reflexivity|]].
  - apply chi_in_range.
    + destruct (stored_score db) as [s|]; simpl; [by apply Hscore | lia].
    + assert (0 <= default 12000 (stored_existing_emis db)) as He.
      { destruct (stored_existing_emis db) as [e|]; simpl;
          [by apply Hemis | by apply Qle_bool_iff]. }
      set (emis := default 12000 (stored_existing_emis db)) in *.
      set (income := default 85000 (stored_monthly_income db)).
      destruct (Qltb 0 income) eqn:E; [|lra].
      apply Qltb_lt in E.
      apply Qmult_le_0_compat; [apply Qle_shift_div_l; [done | lra] | lra].
    + destruct (stored_active_loans db) as [l|]; simpl; [by apply Hloans | lia].
    + lia.
  - unfold get_risk_level.
    destruct (70 <=? _)%Z; [|destruct (40 <=? _)%Z];
      repeat first [apply list_elem_of_here | apply list_elem_of_further].
Qed.

Lemma get_current_chi_valid_witness :
  let db := Stored (Some 40000) None (Some 52000) (Some 4%Z) (Some 610%Z) in
  (13 ≤ chi_score (get_current_chi db) ≤ 100)%Z.
Proof.
  cbv zeta.
  refine (proj1 (get_current_chi_valid
                   (Stored (Some 40000) None (Some 52000) (Some 4%Z)
                      (Some 610%Z)) _ _ _ _)); simpl.
  - intros score [= <-]. lia.
  - intros income [= <-]. by apply Qle_bool_iff.
  - intros emis [= <-]. by apply Qle_bool_iff.
  - intros loans [= <-]. lia.
Defined.

(** X27.  The two routes disagree on a user without income.  For a stored
    income of zero or less, [get_current_chi] takes the EMI ratio to be 0
    while the playground takes it to be 100, so the score of the first is
    exactly 30 above the [current_chi] that the second reports for the same
    stored profile. *)
Theorem current_chi_differs_without_income (amount rate : Q) (tenure : Z)
    (db : stored) (income : Q) :
  stored_monthly_income db = Some income → income <= 0 →
  let request :=
    {| req_loan_amount := amount; req_interest_rate := rate;
       req_tenure_months := tenure; req_monthly_income := None;
       req_monthly_expenses := None; req_existing_emis := None;
       req_credit_score := None; req_active_loans := None |} in
  chi_score (get_current_chi db)
  = (resp_current_chi (calculate_loan request db) + 30)%Z.
Proof.
  intros Hdb Hinc. cbv zeta. unfold get_current_chi, calculate_loan.
  cbv zeta. response_fields. cbn [chi_score].
  cbn [req_monthly_income req_existing_emis req_credit_score req_active_loans
       unless_requested or_default or_default_int].
  rewrite Hdb. cbn [default from_option id].
  rewrite (ratio_sentinel _ income Hinc).
  pose proof Hinc as Hlt. apply Qltb_ge in Hlt. rewrite Hlt.
  change (DEFAULT_USER !!! "credit_score") with 742%Z.
  change (DEFAULT_USER !!! "active_loans") with 2%Z.
  unfold calculate_chi.
  rewrite <- (py_round_shift_even _ 30) by reflexivity.
  apply py_round_comp.
  assert (emi_component 0 == 30) as -> by reflexivity.
  assert (emi_component 100 == 0) as -> by reflexivity.
  change (inject_Z 30) with 30. ring.
Qed.

Lemma current_chi_differs_without_income_witness :
  let db := Stored (Some 0) None None None None in
  let request :=
    {| req_loan_amount := 500000; req_interest_rate := 17 # 2;
       req_tenure_months := 60; req_monthly_income := None;
       req_monthly_expenses := None; req_existing_emis := None;
       req_credit_score := None; req_active_loans := None |} in
  chi_score (get_current_chi db)
  = (resp_current_chi (calculate_loan request db) + 30)%Z.
Proof.
  cbv zeta.
  apply (current_chi_differs_without_income 500000 (17 # 2) 60
           (Stored (Some 0) None None None None) 0 eq_refl).
  by apply Qle_bool_iff.
Defined.

(** X28.  The alerts route always passes a score trend of 44, so whenever it
    reads a profile the "score_improvement" alert is among its alerts; with
    or without a profile its list is never empty, is ordered high, medium,
    low, and its three counts add up to the length of the list. *)
Theorem get_risk_alerts_never_empty (now : string)
    (lookup : option (profile_row * option Z)) :
  let response := get_risk_alerts now lookup in
  alerts response ≠ [] ∧
  (is_Some lookup → "score_improvement" ∈ alert_id <$> alerts response) ∧
  StronglySorted (λ a b, severity_key a ≤ severity_key b)%Z (alerts response) ∧
  (counts response !!! "high" + counts response !!! "medium"
   + counts response !!! "low")%Z
  = Z.of_nat (length (alerts response)).
Proof.
  cbv zeta. destruct lookup as [[profile score]|]; cbn [get_risk_alerts alerts counts].
  - set (output := generate_risk_alerts _ _ _ _ _ _ _ _).
    assert ("score_improvement" ∈ alert_id <$> output) as Hin
      by (apply score_improvement_iff; lia).
    split; [|split; [done|split]].
    + intros Hnil. rewrite Hnil in Hin. by apply elem_of_nil in Hin.
    + apply sort_by_key_sorted.
    + rewrite get_alert_counts_counts, !count_severity_alert_dict.
      pose proof (known_severities_partition _
                    (generate_risk_alerts_known_severities now
                       (default 700%Z score) (row_monthly_income profile)
                       (row_monthly_expenses profile)
                       (row_existing_emis profile)
                       (row_credit_utilization profile)
                       (row_active_loans profile) 44)) as Hsum.
      fold output in Hsum.
      assert (∀ h m l, counts_dict h m l !!! "high" = h) as -> by done.
      assert (∀ h m l, counts_dict h m l !!! "medium" = m) as -> by done.
      assert (∀ h m l, counts_dict h m l !!! "low" = l) as -> by done.
      lia.
  - split; [done|]. split; [by intros [? ?]|]. split; [|reflexivity].
    repeat constructor; by vm_compute.
Qed.

(** X29.  The detail route only knows the three mock alerts.  Every alert
    that the list route generates from a stored profile has the id of its
    rule, and asking the detail route for that id is answered 404; each mock
    alert is found under its id. *)
Theorem get_risk_alert_only_mock :
  (∀ (now : string) (row : profile_row) (score : option Z) (a : alert),
     a ∈ alerts (get_risk_alerts now (Some (row, score))) →
     get_risk_alert (alert_id a) = HTTPException 404 "Alert not found") ∧
  (∀ a, a ∈ MOCK_ALERTS → get_risk_alert (alert_id a) = Respond a).
Proof.
  split.
  - intros now row score a Ha. cbn [get_risk_alerts alerts] in Ha.
    apply generate_risk_alerts_over_elem_of in Ha as (rule & Hin & Hrule).
    apply rule_alert_Some in Hrule as (_ & d & _ & ->).
    cbn [alert_id]. unfold RISK_RULES in Hin.
    repeat (apply elem_of_cons in Hin as [-> | Hin]);
      [reflexivity.. | by apply elem_of_nil in Hin].
  - intros a Hin. unfold MOCK_ALERTS in Hin.
    repeat (apply elem_of_cons in Hin as [-> | Hin]);
      [reflexivity.. | by apply elem_of_nil in Hin].
Qed.
